(** * Beyonder Chat: message lifecycle, fan-out and client reconciliation

  A shallow embedding of

  - [backend/src/controllers/message.controller.js]
    ([getMessages], [sendMessage], [editMessage], [deleteMessage],
    [pinMessage]),
  - the chat store of the front end ([subscribeToMessages],
    [unsubscribeFromMessages] and the four socket handlers), and
  - the sidebar's [handleNewMessage] listener,

  followed by the properties the design document states about them.

  Conventions.  Identifiers (Mongo ObjectIds, socket ids) are strings; a
  field that may be [undefined] or [null] is an [option].  JavaScript
  truthiness is written out ([truthy]): a missing value and the empty
  string are falsy.  Strings are byte strings, so [trim] knows the ASCII
  white space only.  Logging is left out.  A [TypeError] raised by a
  property access on [undefined] is modelled where the source can raise
  it: in the controllers it ends in the [catch] that answers 500, in the
  client handlers it aborts the handler before [set] is reached. *)

From Stdlib Require Import ZArith Ascii String.
From stdpp Require Import gmap strings list sorting.

Local Open Scope string_scope.
Local Open Scope list_scope.
Local Open Scope Z_scope.

(** ** JavaScript values used by the code *)

Module JS.

(** [!!s] for a string. *)
Definition nonempty (s : string) : bool :=
  match s with EmptyString => false | String _ _ => true end.

(** [!!v] for a value that is a string, [undefined] or [null]. *)
Definition truthy (v : option string) : bool :=
  match v with Some s => nonempty s | None => false end.

(** [a === b] for such values. *)
Definition strict_eq (a b : option string) : bool :=
  match a, b with
  | Some x, Some y => String.eqb x y
  | None, None => true
  | _, _ => false
  end.

(** [v || null]. *)
Definition or_null (v : option string) : option string :=
  if truthy v then v else None.

(** [v || d]. *)
Definition or_default (v : option string) (d : string) : string :=
  match v with
  | Some s => if nonempty s then s else d
  | None => d
  end.

(** [v ? f(v) : d], and [if (v) f(v) else d]. *)
Definition when_truthy {A} (v : option string) (f : string → A) (d : A) : A :=
  match v with
  | Some s => if nonempty s then f s else d
  | None => d
  end.

Definition is_space (c : ascii) : bool :=
  match nat_of_ascii c with
  | 9%nat | 10%nat | 11%nat | 12%nat | 13%nat | 32%nat => true
  | _ => false
  end.

Fixpoint trimStart (s : string) : string :=
  match s with
  | EmptyString => EmptyString
  | String c s' => if is_space c then trimStart s' else s
  end.

Fixpoint trimEnd (s : string) : string :=
  match s with
  | EmptyString => EmptyString
  | String c s' =>
      let t := trimEnd s' in
      if is_space c && negb (nonempty t) then EmptyString else String c t
  end.

(** [s.trim()]. *)
Definition trim (s : string) : string := trimEnd (trimStart s).

(** [!!(v?.trim())]. *)
Definition truthy_trim (v : option string) : bool :=
  match v with Some s => nonempty (trim s) | None => false end.

End JS.

(** ** The reversible text transform *)

Module Caesar.

(** Modelled from the spec: [lib/caesarCipher.js] is imported by the
    controller but is not among the sources. The design document gives
    its interface, [obscure(text) -> token] and [reveal(token) -> text],
    deterministic and mutually inverse, and calls it a fixed-shift
    substitution; the controller's comments give the shift, 4. Letters
    are rotated within their case, every other character is kept. *)
Definition rotate (k : nat) (c : ascii) : ascii :=
  let n := nat_of_ascii c in
  if ((65 <=? n) && (n <=? 90))%nat then
    ascii_of_nat (65 + (n - 65 + k) mod 26)
  else if ((97 <=? n) && (n <=? 122))%nat then
    ascii_of_nat (97 + (n - 97 + k) mod 26)
  else c.

Fixpoint map_chars (f : ascii → ascii) (s : string) : string :=
  match s with
  | EmptyString => EmptyString
  | String c s' => String (f c) (map_chars f s')
  end.

(** Modelled from the spec: [encryptCaesar] of [lib/caesarCipher.js],
    the [obscure] of the design document. The controller is stated over
    any pair of functions (see [Section Controller]); this pair
    instantiates it. *)
Definition encryptCaesar (t : string) : string := map_chars (rotate 4) t.

(** Modelled from the spec: [decryptCaesar] of [lib/caesarCipher.js],
    the [reveal] of the design document. *)
Definition decryptCaesar (t : string) : string := map_chars (rotate 22) t.

End Caesar.

(** ** The message controller (server side) *)

Module Server.

(** The verdicts of the classification service, stored as received. The
    numbers are carried through untouched; this controller only ever
    writes the literal 0 itself. *)
Record SentimentAnalysis := {
  value : string;
  confidence : Z;
  score : Z;
  source : string;
  wordAnalysis : list string;
  enhanced : bool
}.

Record Toxicity := {
  isToxic : bool;
  toxicityScore : Z;
  severity : string;
  categories : list string
}.

(** What [analyzeTextToxicityWithEnhancedSentiment] resolves to. *)
Record AnalysisResult := {
  res_sentiment : SentimentAnalysis;
  res_toxicity : Toxicity;
  res_sentimentOverridden : option bool
}.

(** Modelled from the spec: [models/message.model.js] is not among the
    sources. A document of the [Message] collection, with the fields the
    controller reads and writes; a new document gets its id and creation
    time from the store and starts with [edited], [isDeleted] and
    [pinned] unset. References to users are kept as the id they hold:
    populating them adds display fields only. *)
Record Message := {
  _id : string;
  senderId : string;
  receiverId : option string;
  groupId : option string;
  text : option string;
  image : option string;
  sentiment : string;
  sentimentAnalysis : SentimentAnalysis;
  sentimentOverridden : bool;
  toxicity : Toxicity;
  replyTo : option string;
  isEncrypted : bool;
  encryptionMethod : string;
  encryptionKey : Z;
  edited : bool;
  isDeleted : bool;
  pinned : bool;
  createdAt : Z
}.

Definition set_text (t : option string) (m : Message) : Message :=
  {| _id := _id m; senderId := senderId m; receiverId := receiverId m;
     groupId := groupId m; text := t; image := image m;
     sentiment := sentiment m; sentimentAnalysis := sentimentAnalysis m;
     sentimentOverridden := sentimentOverridden m; toxicity := toxicity m;
     replyTo := replyTo m; isEncrypted := isEncrypted m;
     encryptionMethod := encryptionMethod m;
     encryptionKey := encryptionKey m; edited := edited m;
     isDeleted := isDeleted m; pinned := pinned m;
     createdAt := createdAt m |}.

Definition set_edited (b : bool) (m : Message) : Message :=
  {| _id := _id m; senderId := senderId m; receiverId := receiverId m;
     groupId := groupId m; text := text m; image := image m;
     sentiment := sentiment m; sentimentAnalysis := sentimentAnalysis m;
     sentimentOverridden := sentimentOverridden m; toxicity := toxicity m;
     replyTo := replyTo m; isEncrypted := isEncrypted m;
     encryptionMethod := encryptionMethod m;
     encryptionKey := encryptionKey m; edited := b;
     isDeleted := isDeleted m; pinned := pinned m;
     createdAt := createdAt m |}.

Definition set_isDeleted (b : bool) (m : Message) : Message :=
  {| _id := _id m; senderId := senderId m; receiverId := receiverId m;
     groupId := groupId m; text := text m; image := image m;
     sentiment := sentiment m; sentimentAnalysis := sentimentAnalysis m;
     sentimentOverridden := sentimentOverridden m; toxicity := toxicity m;
     replyTo := replyTo m; isEncrypted := isEncrypted m;
     encryptionMethod := encryptionMethod m;
     encryptionKey := encryptionKey m; edited := edited m;
     isDeleted := b; pinned := pinned m;
     createdAt := createdAt m |}.

Definition set_pinned (b : bool) (m : Message) : Message :=
  {| _id := _id m; senderId := senderId m; receiverId := receiverId m;
     groupId := groupId m; text := text m; image := image m;
     sentiment := sentiment m; sentimentAnalysis := sentimentAnalysis m;
     sentimentOverridden := sentimentOverridden m; toxicity := toxicity m;
     replyTo := replyTo m; isEncrypted := isEncrypted m;
     encryptionMethod := encryptionMethod m;
     encryptionKey := encryptionKey m; edited := edited m;
     isDeleted := isDeleted m; pinned := b;
     createdAt := createdAt m |}.

(** The collection, in insertion order. *)
Definition Collection := list Message.

(** [Message.findById(id)]. *)
Definition findById (db : Collection) (id : string) : option Message :=
  List.find (fun m => String.eqb (_id m) id) db.

(** [message.save()] on a document that was read from the collection. *)
Definition save (db : Collection) (m : Message) : Collection :=
  List.map (fun x => if String.eqb (_id x) (_id m) then m else x) db.

(** [newMessage.save()] on a fresh document. *)
Definition insert (db : Collection) (m : Message) : Collection := db ++ [m].

(** [message.toObject()] after the reveal step: the plain fields and
    the [isDecryptedForDisplay] mark. *)
Record Revealed := {
  fields : Message;
  isDecryptedForDisplay : bool
}.

(** What goes to the sockets and into the response: the message and,
    where the controller populated it, the message it replies to. *)
Record MessageObject := {
  self : Revealed;
  replyToObj : option Revealed
}.

Record Reaction := { reaction_type : string; userId : string }.

(** An element of the history answer. *)
Record HistoryEntry := {
  messageObj : MessageObject;
  reactions : list Reaction;
  reactionSummary : list (string * list string);
  totalReactions : nat
}.

Inductive Target :=
| Room (room : string)        (* io.to(groupId.toString()) *)
| Socket (socketId : string). (* io.to(socketId) *)

Record Emit := {
  target : Target;
  event : string;
  payload : MessageObject
}.

Inductive Body :=
| JsonMessage (m : MessageObject)
| JsonHistory (l : list HistoryEntry)
| JsonText (key text : string).   (* { message: ... } or { error: ... } *)

Record Response := { status : Z; body : Body }.

(** What one request does: the collection afterwards, the events sent,
    the answer. *)
Record Outcome := {
  stored : Collection;
  emitted : list Emit;
  response : Response
}.

(** The request body of [sendMessage]. *)
Record SendBody := {
  body_text : option string;
  body_image : option string;
  body_groupId : option string;
  body_sentiment : option string;
  body_replyTo : option string;
  body_selectedModel : option string
}.

(** *** The controller

    The collaborators the controller imports and that are not part of it:
    the text transform, the classification service, the media store, the
    table of connected sockets, the group and reaction collections. *)

Section Controller.

Variable encryptCaesar decryptCaesar : string → string.

(** [analyzeTextToxicityWithEnhancedSentiment(text, model)]; [None] when
    the call throws. *)
Variable analyzeTextToxicityWithEnhancedSentiment :
  string → string → option AnalysisResult.

(** [cloudinary.uploader.upload(image, ...)]: [None] when it throws,
    otherwise the [secure_url] of the result. *)
Variable cloudinary_upload : string → option (option string).

(** [getReceiverSocketId(userId)] of [lib/socket.js]: the socket of a
    user, if that user is connected. *)
Variable getReceiverSocketId : option string → option string.

(** [Group.findOne({ _id: groupId, members: userId })], as a truth value. *)
Variable Group_findOne : string → string → bool.

(** [Reaction.find({ messageId })]. *)
Variable Reaction_find : string → list Reaction.

(** The "decrypt for display" block that every handler repeats:
    [if (obj.isEncrypted && obj.text) { obj.text = decryptCaesar(obj.text);
    obj.isDecryptedForDisplay = true }]. *)
Definition reveal (m : Message) : Revealed :=
  if isEncrypted m && JS.truthy (text m)
  then {| fields := set_text (decryptCaesar <$> text m) m;
          isDecryptedForDisplay := true |}
  else {| fields := m; isDecryptedForDisplay := false |}.

Definition asIs (m : Message) : Revealed :=
  {| fields := m; isDecryptedForDisplay := false |}.

(** [text ? encryptCaesar(text) : null], the token stored for a text. *)
Definition encryptedText (text : option string) : option string :=
  JS.when_truthy text (fun t => Some (encryptCaesar t)) None.

(** [populate({ path: "replyTo", ... })]: the referenced document, [None]
    when there is no reference or it dangles. *)
Definition populateReplyTo (db : Collection) (m : Message) : option Message :=
  JS.when_truthy (replyTo m) (findById db) None.

(** [if (socketId) io.to(socketId).emit(ev, payload)]. *)
Definition emitTo (socketId : option string) (ev : string) (p : MessageObject)
  : list Emit :=
  JS.when_truthy socketId
    (fun s => [{| target := Socket s; event := ev; payload := p |}]) [].

(** **** getMessages *)

Fixpoint insertByCreatedAt (m : Message) (l : list Message) : list Message :=
  match l with
  | [] => [m]
  | x :: l' =>
      if createdAt m <=? createdAt x then m :: l
      else x :: insertByCreatedAt m l'
  end.

(** [.sort({ createdAt: 1 })]. *)
Definition sortByCreatedAt (l : list Message) : list Message :=
  foldr insertByCreatedAt [] l.

(** The query of the group branch, [{ groupId }]. *)
Definition inGroup (g : string) (m : Message) : bool :=
  JS.strict_eq (groupId m) (Some g).

(** The query of the direct branch, [{ $or: [...] }]. *)
Definition between (myId userToChatId : string) (m : Message) : bool :=
  (String.eqb (senderId m) myId
   && JS.strict_eq (receiverId m) (Some userToChatId))
  || (String.eqb (senderId m) userToChatId
      && JS.strict_eq (receiverId m) (Some myId)).

Definition conversation (db : Collection) (userToChatId : string)
    (groupId : option string) (myId : string) : list Message :=
  JS.when_truthy groupId
    (fun g => List.filter (inGroup g) db)
    (List.filter (between myId userToChatId) db).

Fixpoint pushReaction (acc : list (string * list string)) (r : Reaction)
  : list (string * list string) :=
  match acc with
  | [] => [(reaction_type r, [userId r])]
  | (k, us) :: acc' =>
      if String.eqb k (reaction_type r) then (k, us ++ [userId r]) :: acc'
      else (k, us) :: pushReaction acc' r
  end.

Definition historyEntry (db : Collection) (message : Message) : HistoryEntry :=
  let reactions := Reaction_find (_id message) in
  {| messageObj := {| self := reveal message;
                      replyToObj := reveal <$> populateReplyTo db message |};
     reactions := reactions;
     reactionSummary := foldl pushReaction [] reactions;
     totalReactions := length reactions |}.

Definition getMessages (db : Collection) (userToChatId : string)
    (groupId : option string) (myId : string) : Outcome :=
  let messages := sortByCreatedAt (conversation db userToChatId groupId myId) in
  let decryptedMessages := List.map (historyEntry db) messages in
  {| stored := db; emitted := [];
     response := {| status := 200; body := JsonHistory decryptedMessages |} |}.

(** **** sendMessage *)

(** The upload block: the payload is kept inline when it is larger than
    10 MB ([image.length * 0.75 / 1024 / 1024 > 10], that is
    [3 * length > 41943040]) or when the media store fails. *)
Definition uploadImage (image : option string) : option string :=
  match image with
  | Some img =>
      if JS.nonempty img then
        if 41943040 <? 3 * Z.of_nat (String.length img) then Some img
        else match cloudinary_upload img with
             | Some secure_url => secure_url
             | None => Some img
             end
      else None
  | None => None
  end.

Definition noToxicity : Toxicity :=
  {| isToxic := false; toxicityScore := 0; severity := "none";
     categories := [] |}.

Definition fallbackAnalysis (sentiment : option string) : AnalysisResult :=
  {| res_sentiment :=
       {| value := JS.or_default sentiment "neutral"; confidence := 0;
          score := 0; source := "fallback"; wordAnalysis := [];
          enhanced := false |};
     res_toxicity := noToxicity;
     res_sentimentOverridden := Some false |}.

Definition defaultAnalysis : AnalysisResult :=
  {| res_sentiment :=
       {| value := "neutral"; confidence := 0; score := 0;
          source := "default"; wordAnalysis := []; enhanced := false |};
     res_toxicity := noToxicity;
     res_sentimentOverridden := Some false |}.

Definition analyse (b : SendBody) : AnalysisResult :=
  match body_text b with
  | Some text =>
      if JS.nonempty (JS.trim text) then
        match analyzeTextToxicityWithEnhancedSentiment text
                (JS.or_default (body_selectedModel b) "svc") with
        | Some analysisResult => analysisResult
        | None => fallbackAnalysis (body_sentiment b)
        end
      else defaultAnalysis
  | None => defaultAnalysis
  end.

(** [new Message(messageData)]. *)
Definition newMessage (b : SendBody) (receiverId : option string)
    (senderId newId : string) (now : Z) : Message :=
  let analysisResult := analyse b in
  {| _id := newId;
     senderId := senderId;
     receiverId := if JS.truthy (body_groupId b) then None else receiverId;
     groupId := if JS.truthy (body_groupId b) then body_groupId b else None;
     text := encryptedText (body_text b);
     image := JS.or_null (uploadImage (body_image b));
     sentiment := value (res_sentiment analysisResult);
     sentimentAnalysis := res_sentiment analysisResult;
     sentimentOverridden :=
       match res_sentimentOverridden analysisResult with
       | Some o => o
       | None => false
       end;
     toxicity := res_toxicity analysisResult;
     replyTo := JS.or_null (body_replyTo b);
     isEncrypted := true;
     encryptionMethod := "caesar";
     encryptionKey := 4;
     edited := false;
     isDeleted := false;
     pinned := false;
     createdAt := now |}.

Definition sendMessage (db : Collection) (b : SendBody)
    (receiverId : option string) (senderId newId : string) (now : Z)
  : Outcome :=
  if negb (JS.truthy_trim (body_text b)) && negb (JS.truthy (body_image b))
  then {| stored := db; emitted := [];
          response := {| status := 400;
                         body := JsonText "message"
                                   "Message must contain text or image" |} |}
  else
    let message := newMessage b receiverId senderId newId now in
    let db' := insert db message in
    let messageForSocket :=
      {| self := reveal message;
         replyToObj := reveal <$> populateReplyTo db' message |} in
    let emits :=
      JS.when_truthy (body_groupId b)
        (fun g => [{| target := Room g; event := "newMessage";
                      payload := messageForSocket |}])
        (emitTo (getReceiverSocketId receiverId) "newMessage"
           messageForSocket
         ++ emitTo (getReceiverSocketId (Some senderId)) "newMessage"
              messageForSocket) in
    {| stored := db'; emitted := emits;
       response := {| status := 201; body := JsonMessage messageForSocket |} |}.

(** **** editMessage, deleteMessage, pinMessage *)

(** The permission check the three handlers share, with the names the
    source gives to its parts. *)
Definition isPrivateMessage (message : Message) : bool :=
  JS.truthy (receiverId message) && negb (JS.truthy (groupId message)).

Definition isSender (message : Message) (userId : string) : bool :=
  String.eqb (senderId message) userId.

Definition isReceiver (message : Message) (userId : string) : bool :=
  isPrivateMessage message
  && JS.strict_eq (receiverId message) (Some userId).

Definition isGroupMember (message : Message) (userId : string) : bool :=
  JS.when_truthy (groupId message) (fun g => Group_findOne g userId) false.

Definition forbidden (message : Message) (userId : string) : bool :=
  negb (isSender message userId) && negb (isReceiver message userId)
  && negb (isGroupMember message userId).

(** The block that closes the three handlers: a group message goes to
    the group's room; otherwise it goes to the socket found for
    [message.receiverId.toString()] and to the socket found for
    [userId.toString()], where [userId] is the user making the request.
    [None] is the [TypeError] of [message.receiverId.toString()] on a
    message without receiver. *)
Definition emitUpdate (ev : string) (message : Message) (userId : string)
    (messageForSocket : MessageObject) : option (list Emit) :=
  JS.when_truthy (groupId message)
    (fun g => Some [{| target := Room g; event := ev;
                       payload := messageForSocket |}])
    (match receiverId message with
     | Some r =>
         let receiverSocketId := getReceiverSocketId (Some r) in
         let senderSocketId := getReceiverSocketId (Some userId) in
         Some (emitTo receiverSocketId ev messageForSocket
               ++ emitTo senderSocketId ev messageForSocket)
     | None => None
     end).

Definition notFound : Response :=
  {| status := 404; body := JsonText "error" "Message not found" |}.

Definition internalError : Response :=
  {| status := 500; body := JsonText "error" "Internal server error" |}.

(** The end of a handler: the events of [emitUpdate] and the answer
    [ok], or the [catch] branch when [emitUpdate] threw (the document is
    saved by then). *)
Definition finish (db' : Collection) (emits : option (list Emit))
    (ok : Response) : Outcome :=
  match emits with
  | Some es => {| stored := db'; emitted := es; response := ok |}
  | None => {| stored := db'; emitted := []; response := internalError |}
  end.

Definition editMessage (db : Collection) (messageId : string)
    (newText : option string) (userId : string) : Outcome :=
  match findById db messageId with
  | None => {| stored := db; emitted := []; response := notFound |}
  | Some message =>
      if forbidden message userId then
        {| stored := db; emitted := [];
           response :=
             {| status := 403;
                body := JsonText "error"
                  "You don't have permission to edit this message" |} |}
      else
        let message :=
          set_edited true (set_text (encryptedText newText) message) in
        let db' := save db message in
        let messageForSocket :=
          {| self := reveal message;
             replyToObj := reveal <$> populateReplyTo db' message |} in
        finish db' (emitUpdate "messageEdited" message userId messageForSocket)
          {| status := 200; body := JsonMessage messageForSocket |}
  end.

Definition deleteMessage (db : Collection) (messageId userId : string)
  : Outcome :=
  match findById db messageId with
  | None => {| stored := db; emitted := []; response := notFound |}
  | Some message =>
      if forbidden message userId then
        {| stored := db; emitted := [];
           response :=
             {| status := 403;
                body := JsonText "error"
                  "You don't have permission to delete this message" |} |}
      else
        let message := set_text None (set_isDeleted true message) in
        let db' := save db message in
        let messageForSocket :=
          {| self := asIs message; replyToObj := None |} in
        finish db'
          (emitUpdate "messageDeleted" message userId messageForSocket)
          {| status := 200;
             body := JsonText "message" "Message deleted successfully" |}
  end.

Definition pinMessage (db : Collection) (messageId userId : string)
  : Outcome :=
  match findById db messageId with
  | None => {| stored := db; emitted := []; response := notFound |}
  | Some message =>
      if forbidden message userId then
        {| stored := db; emitted := [];
           response :=
             {| status := 403;
                body := JsonText "error"
                  "You don't have permission to pin this message" |} |}
      else
        let message := set_pinned (negb (pinned message)) message in
        let db' := save db message in
        let messageForSocket :=
          {| self := reveal message; replyToObj := None |} in
        finish db'
          (emitUpdate "messagePinned" message userId messageForSocket)
          {| status := 200; body := JsonMessage messageForSocket |}
  end.

End Controller.

(** **** getUsersForSidebar *)

Section Users.

(** The documents of the [User] collection. The controller reads their
    [_id] and leaves the password out of the answer
    ([select("-password")]); what else they hold is not its concern. *)
Variable User : Type.
Variable User_id : User → string.
Variable without_password : User → User.

(** [User.find({ _id: { $ne: loggedInUserId } }).select("-password")]. *)
Definition findOthers (users : list User) (loggedInUserId : string)
  : list User :=
  without_password
    <$> List.filter (fun u => negb (String.eqb (User_id u) loggedInUserId))
          users.

(** The answer is a status and the list. The 404 of the second branch
    needs [!filteredUsers], which no array satisfies, not even the empty
    one. *)
Definition getUsersForSidebar (users : list User)
    (loggedInUserId loggedInUserEmail : string) : Z * list User :=
  if String.eqb loggedInUserEmail "bey@email.com" then
    let filteredUsers := findOthers users loggedInUserId in
    (200, filteredUsers)
  else
    let filteredUsers := findOthers users loggedInUserId in
    (200, filteredUsers).

End Users.

End Server.

(** ** The chat store and the sidebar (client side) *)

Module Client.

(** A user reference inside a message as it arrives over the socket:
    absent, [null], a bare id, or a populated user object (of which the
    handlers read [_id] only). *)
Inductive UserRef :=
| Missing
| Null
| Id (id : string)
| Populated (id : string).

(** A message as the handlers see it. [createdAt] is the instant its ISO
    date denotes, in milliseconds ([new Date(createdAt).getTime()]);
    [None] when the field is missing. *)
Record Message := {
  _id : string;
  senderId : UserRef;
  receiverId : UserRef;
  groupId : option string;
  text : option string;
  image : option string;
  edited : bool;
  isDeleted : bool;
  pinned : bool;
  createdAt : option Z
}.

Module SelectedUser.
(** The entry picked in the sidebar: a friend, or the object that
    [openGroupChat] builds for a group (then [groupId] is set). *)
Record t := { _id : string; groupId : option string; isGroup : bool }.
End SelectedUser.

Module AuthUser.
Record t := { _id : string }.
End AuthUser.

(** [ref._id]; [None] is the [TypeError] of reading a property of
    [undefined] or [null]. A bare id has no [_id]: the result is
    [undefined]. *)
Definition get_id (r : UserRef) : option (option string) :=
  match r with
  | Missing | Null => None
  | Id _ => Some None
  | Populated i => Some (Some i)
  end.

(** The functions the store creates in [subscribeToMessages]. Two calls
    create different function objects; [serial] tells them apart.
    [Foreign] stands for the listeners of other components on the same
    socket. *)
Inductive Kind :=
| MessageHandler
| MessageDeletedHandler
| MessageEditedHandler
| MessagePinnedHandler
| Foreign.

Record Closure := { kind : Kind; serial : nat }.

Record Listener := { event : string; callback : Closure }.

#[global] Instance Kind_eq_dec : EqDecision Kind.
Proof. solve_decision. Defined.

#[global] Instance Closure_eq_dec : EqDecision Closure.
Proof. solve_decision. Defined.

(** The store: its zustand state ([messages], [selectedUser]), the
    variables its closure keeps ([messageHandler] ... [currentSocket]),
    what it reads from the auth store ([socket], [authUser]), and the
    listener table of every socket. *)
Record World := {
  messages : list Message;
  selectedUser : option SelectedUser.t;
  messageHandler : option Closure;
  messageDeletedHandler : option Closure;
  messageEditedHandler : option Closure;
  messagePinnedHandler : option Closure;
  currentSocket : option nat;
  socket : option nat;
  authUser : option AuthUser.t;
  listeners : gmap nat (list Listener);
  allocated : nat
}.

Definition set_messages (l : list Message) (w : World) : World :=
  {| messages := l; selectedUser := selectedUser w;
     messageHandler := messageHandler w;
     messageDeletedHandler := messageDeletedHandler w;
     messageEditedHandler := messageEditedHandler w;
     messagePinnedHandler := messagePinnedHandler w;
     currentSocket := currentSocket w; socket := socket w;
     authUser := authUser w; listeners := listeners w;
     allocated := allocated w |}.

(** [setSelectedUser: (selectedUser) => set({ selectedUser })]. *)
Definition setSelectedUser (u : option SelectedUser.t) (w : World) : World :=
  {| messages := messages w; selectedUser := u;
     messageHandler := messageHandler w;
     messageDeletedHandler := messageDeletedHandler w;
     messageEditedHandler := messageEditedHandler w;
     messagePinnedHandler := messagePinnedHandler w;
     currentSocket := currentSocket w; socket := socket w;
     authUser := authUser w; listeners := listeners w;
     allocated := allocated w |}.

Definition set_listeners (ls : gmap nat (list Listener)) (w : World) : World :=
  {| messages := messages w; selectedUser := selectedUser w;
     messageHandler := messageHandler w;
     messageDeletedHandler := messageDeletedHandler w;
     messageEditedHandler := messageEditedHandler w;
     messagePinnedHandler := messagePinnedHandler w;
     currentSocket := currentSocket w; socket := socket w;
     authUser := authUser w; listeners := ls;
     allocated := allocated w |}.

(** The four handler variables and [currentSocket], assigned together. *)
Definition set_binding (h d e p : option Closure) (s : option nat)
    (w : World) : World :=
  {| messages := messages w; selectedUser := selectedUser w;
     messageHandler := h; messageDeletedHandler := d;
     messageEditedHandler := e; messagePinnedHandler := p;
     currentSocket := s; socket := socket w;
     authUser := authUser w; listeners := listeners w;
     allocated := allocated w |}.

(** *** The socket's emitter *)

Fixpoint remove_first (ev : string) (fn : Closure) (l : list Listener)
  : list Listener :=
  match l with
  | [] => []
  | x :: l' =>
      if String.eqb (event x) ev && bool_decide (callback x = fn) then l'
      else x :: remove_first ev fn l'
  end.

(** [s.off(ev, fn)]: the first registration of [fn] for [ev] goes; a
    [null] function matches none. *)
Definition off (s : nat) (ev : string) (fn : option Closure) (w : World)
  : World :=
  match fn with
  | Some f => set_listeners (alter (remove_first ev f) s (listeners w)) w
  | None => w
  end.

(** [s.on(ev, fn)]. *)
Definition on (s : nat) (ev : string) (fn : Closure) (w : World) : World :=
  set_listeners
    (<[s := default [] (listeners w !! s)
            ++ [{| event := ev; callback := fn |}]]> (listeners w)) w.

(** *** The handlers *)

(** [isRelevantDM]; [None] when one of the [_id] reads throws. The
    operands are evaluated left to right with the short cuts of [&&] and
    [||]. *)
Definition isRelevantDM (sel : SelectedUser.t) (auth : AuthUser.t)
    (newMessage : Message) : option bool :=
  if JS.truthy (SelectedUser.groupId sel) then Some false
  else
    s ← get_id (senderId newMessage);
    received ←
      (if JS.strict_eq s (Some (SelectedUser._id sel))
       then r ← get_id (receiverId newMessage);
            Some (JS.strict_eq r (Some (AuthUser._id auth)))
       else Some false);
    if (received : bool) then Some true
    else if JS.strict_eq s (Some (AuthUser._id auth))
    then r ← get_id (receiverId newMessage);
         Some (JS.strict_eq r (Some (SelectedUser._id sel)))
    else Some false.

Definition isRelevantGroup (sel : SelectedUser.t) (newMessage : Message)
  : bool :=
  JS.truthy (SelectedUser.groupId sel)
  && JS.strict_eq (groupId newMessage) (SelectedUser.groupId sel).

(** The [newMessage] listener. [None]: it threw, [set] was not called. *)
Definition run_messageHandler (newMessage : Message) (w : World)
  : option World :=
  match selectedUser w, authUser w with
  | Some currentSelectedUser, Some currentAuthUser =>
      dm ← isRelevantDM currentSelectedUser currentAuthUser newMessage;
      if isRelevantGroup currentSelectedUser newMessage || dm then
        let messageExists :=
          existsb (fun msg => String.eqb (_id msg) (_id newMessage))
            (messages w) in
        if messageExists then Some w
        else Some (set_messages (messages w ++ [newMessage]) w)
      else Some w
  | _, _ => Some w
  end.

(** The body shared by the [messageDeleted], [messageEdited] and
    [messagePinned] listeners:
    [messages.map(msg => msg._id === m._id ? m : msg)]. *)
Definition replaceById (m : Message) (l : list Message) : list Message :=
  List.map (fun msg => if String.eqb (_id msg) (_id m) then m else msg) l.

Definition run_messageDeletedHandler (deletedMessage : Message) (w : World)
  : World := set_messages (replaceById deletedMessage (messages w)) w.

Definition run_messageEditedHandler (editedMessage : Message) (w : World)
  : World := set_messages (replaceById editedMessage (messages w)) w.

Definition run_messagePinnedHandler (pinnedMessage : Message) (w : World)
  : World := set_messages (replaceById pinnedMessage (messages w)) w.

(** A [created] event applied to the store: a listener that throws
    leaves the state as it was. *)
Definition applyCreated (newMessage : Message) (w : World) : World :=
  default w (run_messageHandler newMessage w).

(** What calling a registered function does to the store. *)
Definition call (fn : Closure) (m : Message) (w : World) : World :=
  match kind fn with
  | MessageHandler => applyCreated m w
  | MessageDeletedHandler => run_messageDeletedHandler m w
  | MessageEditedHandler => run_messageEditedHandler m w
  | MessagePinnedHandler => run_messagePinnedHandler m w
  | Foreign => w
  end.

(** The callbacks a socket runs when event [ev] arrives, in order. *)
Definition callbacks (s : nat) (ev : string) (w : World) : list Closure :=
  callback <$> List.filter (fun l => String.eqb (event l) ev)
                 (default [] (listeners w !! s)).

(** Event [ev] with payload [m] arriving on socket [s]. *)
Definition receive (s : nat) (ev : string) (m : Message) (w : World) : World :=
  foldl (fun w fn => call fn m w) w (callbacks s ev w).

(** *** subscribeToMessages, unsubscribeFromMessages *)

Definition unbindOld (old : nat) (w : World) : World :=
  let w := off old "newMessage" (messageHandler w) w in
  let w := off old "messageDeleted" (messageDeletedHandler w) w in
  let w := off old "messageEdited" (messageEditedHandler w) w in
  let w := off old "messagePinned" (messagePinnedHandler w) w in
  set_binding None None None None (currentSocket w) w.

Definition subscribeToMessages (w : World) : World :=
  match socket w, selectedUser w with
  | None, _ => w
  | Some _, None => w
  | Some socket, Some _ =>
      (* unsubscribe from the previous socket if different *)
      let w :=
        match currentSocket w with
        | Some old => if bool_decide (old = socket) then w else unbindOld old w
        | None => w
        end in
      (* already subscribed to the same socket: skip *)
      if bool_decide (currentSocket w = Some socket)
         && bool_decide (is_Some (messageHandler w))
      then w
      else
        (* remove the old handler if it exists *)
        let w :=
          match messageHandler w with
          | Some _ =>
              let w := off socket "newMessage" (messageHandler w) w in
              let w := off socket "messageDeleted" (messageDeletedHandler w) w in
              let w := off socket "messageEdited" (messageEditedHandler w) w in
              off socket "messagePinned" (messagePinnedHandler w) w
          | None => w
          end in
        (* create the handlers and register them *)
        let n := allocated w in
        let h := {| kind := MessageHandler; serial := n |} in
        let d := {| kind := MessageDeletedHandler; serial := n |} in
        let e := {| kind := MessageEditedHandler; serial := n |} in
        let p := {| kind := MessagePinnedHandler; serial := n |} in
        let w := set_binding (Some h) (Some d) (Some e) (Some p)
                   (Some socket) w in
        let w := on socket "newMessage" h w in
        let w := on socket "messageDeleted" d w in
        let w := on socket "messageEdited" e w in
        let w := on socket "messagePinned" p w in
        {| messages := messages w; selectedUser := selectedUser w;
           messageHandler := messageHandler w;
           messageDeletedHandler := messageDeletedHandler w;
           messageEditedHandler := messageEditedHandler w;
           messagePinnedHandler := messagePinnedHandler w;
           currentSocket := currentSocket w; socket := Client.socket w;
           authUser := authUser w; listeners := listeners w;
           allocated := S n |}
  end.

Definition unsubscribeFromMessages (w : World) : World :=
  match currentSocket w with
  | Some cs =>
      let w := off cs "newMessage" (messageHandler w) w in
      let w := off cs "messageDeleted" (messageDeletedHandler w) w in
      let w := off cs "messageEdited" (messageEditedHandler w) w in
      let w := off cs "messagePinned" (messagePinnedHandler w) w in
      set_binding None None None None None w
  | None => w
  end.

(** *** sendMessage and getMessages of the store *)

(** How a request of the store ends: with the data of the answer, or
    with an error. *)
Inductive Reply (A : Type) :=
| Answered (data : A)
| Rejected.

Arguments Answered {A} data.
Arguments Rejected {A}.

(** What [sendMessage] holds across its [await]: the [messages] it read
    with [const { selectedUser, messages } = get()] when it was called,
    and the receiver it put in the url, none for a group. *)
Record PendingSend := {
  pending_messages : list Message;
  pending_receiver : option string
}.

(** [sendMessage] up to the [await]. [None]: nothing is selected and
    [selectedUser.isGroup] throws; the [catch] reports and rethrows. *)
Definition sendMessage_request (w : World) : option PendingSend :=
  match selectedUser w with
  | Some sel =>
      Some {| pending_messages := messages w;
              pending_receiver :=
                if SelectedUser.isGroup sel then None
                else Some (SelectedUser._id sel) |}
  | None => None
  end.

(** The [sidebarUpdate] event the store emits on its socket. *)
Record SidebarUpdate := {
  update_userId : option string;
  update_message : Message;
  update_timestamp : option Z
}.

(** [sendMessage] after the [await], in the state [w] of that moment:
    [set({ messages: [...messages, res.data] })] with the [messages] read
    before, then the [sidebarUpdate] event if there is a socket. On an
    error nothing is set. *)
Definition sendMessage_settle (p : PendingSend) (res : Reply Message)
    (w : World) : World * list SidebarUpdate :=
  match res with
  | Answered data =>
      (set_messages (pending_messages p ++ [data]) w,
       match socket w with
       | Some _ =>
           [{| update_userId := AuthUser._id <$> authUser w;
               update_message := data;
               update_timestamp := createdAt data |}]
       | None => []
       end)
  | Rejected => (w, [])
  end.

(** [getMessages] after its [await]: [set({ messages: res.data })], or
    nothing on an error. *)
Definition getMessages_settle (res : Reply (list Message)) (w : World)
  : World :=
  match res with
  | Answered data => set_messages data w
  | Rejected => w
  end.

(** [openGroupChat] of the sidebar: the entry it selects for a group. *)
Definition openGroupChat (group_id : string) (w : World) : World :=
  setSelectedUser
    (Some {| SelectedUser._id := group_id;
             SelectedUser.groupId := Some group_id;
             SelectedUser.isGroup := true |}) w.

End Client.

Module Sidebar.

Import Client.

(** The state of the component that the listener touches:
    [userLastMessageTime] and the counter behind [forceUpdate]. *)
Record State := {
  userLastMessageTime : gmap string Z;
  renders : nat
}.

(** [typeof ref === 'object' ? ref._id : ref]; [typeof null] is
    ['object'], so a [null] reference throws ([None]). *)
Definition idOf (r : UserRef) : option (option string) :=
  match r with
  | Missing => Some None
  | Null => None
  | Id s => Some (Some s)
  | Populated s => Some (Some s)
  end.

(** [ref ? (typeof ref === 'object' ? ref._id : ref) : null]. *)
Definition idOrNull (r : UserRef) : option string :=
  match r with
  | Missing | Null => None
  | Id s => if JS.nonempty s then Some s else None
  | Populated s => Some s
  end.

Definition touch (key : string) (timestamp : Z) (st : State) : State :=
  {| userLastMessageTime := <[key := timestamp]> (userLastMessageTime st);
     renders := S (renders st) |}.

(** The [newMessage] listener of the sidebar; [currentUserId] is
    [authUser?._id]. [None]: the listener threw. The computed keys
    [[senderId]] and [[receiverId]] are only reached with a truthy
    value. *)
Definition handleNewMessage (currentUserId : option string)
    (newMessage : Message) (st : State) : option State :=
  match createdAt newMessage with
  | None => Some st
  | Some timestamp =>
      senderId ← idOf (senderId newMessage);
      let receiverId := idOrNull (receiverId newMessage) in
      if JS.truthy senderId
         && negb (JS.strict_eq senderId currentUserId)
         && negb (JS.strict_eq senderId (Some "undefined"))
      then Some (touch (default EmptyString senderId) timestamp st)
      else if JS.strict_eq senderId currentUserId
              && JS.truthy receiverId
              && negb (JS.strict_eq receiverId (Some "undefined"))
      then Some (touch (default EmptyString receiverId) timestamp st)
      else Some st
  end.

(** A [newMessage] event reaching the listener. *)
Definition receive (currentUserId : option string) (newMessage : Message)
    (st : State) : State :=
  default st (handleNewMessage currentUserId newMessage st).


(** The creation time of the last element of a history answer
    ([res.data[res.data.length - 1]]); none for an empty answer. *)
Definition lastCreatedAt (data : list Server.HistoryEntry) : option Z :=
  (Server.createdAt ∘ Server.fields ∘ Server.self ∘ Server.messageObj)
    <$> last data.

(** [fetchAllUserMessages], run when the list of friends is loaded: one
    history request per friend ([get]; [None] when it fails), the time of
    the last message of each non-empty answer stored under the friend's
    id, and the table replaced by the result. The effect returns at once
    when there are no friends. *)
Definition fetchAllUserMessages (friends : list string)
    (get : string → option (list Server.HistoryEntry)) (st : State)
  : State :=
  match friends with
  | [] => st
  | _ :: _ =>
      {| userLastMessageTime :=
           foldl (fun timestamps friend =>
                    match get friend with
                    | Some data =>
                        match lastCreatedAt data with
                        | Some timestamp => <[friend := timestamp]> timestamps
                        | None => timestamps
                        end
                    | None => timestamps
                    end) ∅ friends;
         renders := renders st |}
  end.

(** *** The order of the contact list *)

Module Friend.
Record t := { _id : string; fullName : string; email : string }.
End Friend.

(** [userLastMessageTime[id] || 0]. *)
Definition timeOf (times : gmap string Z) (id : string) : Z :=
  match times !! id with
  | Some t => t
  | None => 0
  end.

Section Order.

(** [a.localeCompare(b)], which depends on the locale of the browser. *)
Variable localeCompare : string → string → Z.

(** The comparison function given to [sort]. *)
Definition byRecency (times : gmap string Z) (a b : Friend.t) : Z :=
  let timeA := timeOf times (Friend._id a) in
  let timeB := timeOf times (Friend._id b) in
  if negb (timeA =? 0) || negb (timeB =? 0) then timeB - timeA
  else localeCompare (Friend.fullName a) (Friend.fullName b).

Fixpoint insertBy (cmp : Friend.t → Friend.t → Z) (x : Friend.t)
    (l : list Friend.t) : list Friend.t :=
  match l with
  | [] => [x]
  | y :: l' => if cmp x y <=? 0 then x :: l else y :: insertBy cmp x l'
  end.

(** [list.sort(cmp)], as the stable sort it is. *)
Definition sortBy (cmp : Friend.t → Friend.t → Z) (l : list Friend.t)
  : list Friend.t :=
  foldr (insertBy cmp) [] l.

(** The sorting step of [filteredUsers]. *)
Definition sortByRecency (times : gmap string Z) (l : list Friend.t)
  : list Friend.t :=
  sortBy (byRecency times) l.

End Order.

End Sidebar.

(** ** The member picker of a group (client side) *)

Module GroupCreationModal.

(** [list.includes(id)]. *)
Definition includes (id : string) (l : list string) : bool :=
  existsb (String.eqb id) l.

(** [toggleFriend], as the update of [selectedFriends]. *)
Definition toggleFriend (id : string) (prev : list string) : list string :=
  if includes id prev
  then List.filter (fun fid => negb (String.eqb fid id)) prev
  else prev ++ [id].

(** What [createGroup] does with the form: an error toast, or one of two
    requests. *)
Inductive Outcome :=
| Toast (message : string)
| AddMembers (groupId : string) (members : list string)
| CreateGroup (name : string) (members : list string).

(** [createGroup] up to its request. [group_id] is [group?._id],
    [initialMembers] the ids of the members the modal was opened with. *)
Definition createGroup (showGroupNameInput : bool) (groupName : string)
    (selectedFriends : list string) (group_id : option string)
    (initialMembers : list string) : Outcome :=
  if showGroupNameInput && negb (JS.nonempty (JS.trim groupName)) then
    Toast "Please enter a group name"
  else if (length selectedFriends <? 2)%nat then
    Toast "Please select at least 2 members"
  else
    JS.when_truthy (if showGroupNameInput then None else group_id)
      (fun g =>
         let existingMemberIds := initialMembers in
         let newMembers :=
           List.filter (fun id => negb (includes id existingMemberIds))
             selectedFriends in
         if (length newMembers =? 0)%nat then
           Toast "Please select new members to add"
         else AddMembers g selectedFriends)
      (CreateGroup groupName selectedFriends).

End GroupCreationModal.

(** ** The group controller (server side) *)

Module GroupController.

(** Modelled from the spec: [models/group.model.js] is not among the
    sources. A document of the [Group] collection with the fields the
    controller reads and writes; members and admin are user ids, and a
    new document gets its id from the store. *)
Record Group := {
  _id : string;
  name : string;
  members : list string;
  admin : string;
  profilePic : option string
}.

Definition set_members (l : list string) (g : Group) : Group :=
  {| _id := _id g; name := name g; members := l; admin := admin g;
     profilePic := profilePic g |}.

(** [[...new Set(l)]]: the elements in the order of their first
    occurrence. *)
Fixpoint unique (l : list string) : list string :=
  match l with
  | [] => []
  | x :: l' => x :: List.filter (fun y => negb (String.eqb y x)) (unique l')
  end.

(** [Group.findById(groupId)]. *)
Definition findById (groups : list Group) (groupId : string) : option Group :=
  List.find (fun g => String.eqb (_id g) groupId) groups.

(** [group.save()]. *)
Definition save (groups : list Group) (g : Group) : list Group :=
  List.map (fun x => if String.eqb (_id x) (_id g) then g else x) groups.

(** [Group.findOne({ _id: groupId, members: userId })], as the truth
    value the message controller takes of it. *)
Definition findOne (groups : list Group) (groupId userId : string) : bool :=
  existsb (fun g => String.eqb (_id g) groupId
                    && existsb (String.eqb userId) (members g)) groups.

Inductive Body :=
| JsonGroup (g : Group)
| JsonMessage (message : string)
| JsonLeft (message : string) (g : Group).

Record Outcome := {
  stored : list Group;
  status : Z;
  body : Body
}.

(** [createGroup]; [user] is [req.user.id], [newId] the id the store
    gives the document. *)
Definition createGroup (groups : list Group) (name : string)
    (members : list string) (user newId : string) : Outcome :=
  let group :=
    {| _id := newId; name := name; members := unique (members ++ [user]);
       admin := user; profilePic := None |} in
  {| stored := groups ++ [group]; status := 201; body := JsonGroup group |}.

Definition addMembersToGroup (groups : list Group) (groupId : string)
    (members : list string) : Outcome :=
  match members with
  | [] => {| stored := groups; status := 400;
             body := JsonMessage "Members array is required" |}
  | _ :: _ =>
      match findById groups groupId with
      | None => {| stored := groups; status := 404;
                   body := JsonMessage "Group not found" |}
      | Some group =>
          let existingMembers := GroupController.members group in
          let uniqueMembers := unique (existingMembers ++ members) in
          let group := set_members uniqueMembers group in
          {| stored := save groups group; status := 200;
             body := JsonGroup group |}
      end
  end.

Definition removeMemberFromGroup (groups : list Group)
    (groupId userId : string) : Outcome :=
  match findById groups groupId with
  | None => {| stored := groups; status := 404;
               body := JsonMessage "Group not found" |}
  | Some group =>
      if negb (existsb (String.eqb userId) (members group)) then
        {| stored := groups; status := 400;
           body := JsonMessage "User is not a member of the group" |}
      else
        let group :=
          set_members
            (List.filter (fun member => negb (String.eqb member userId))
               (members group)) group in
        {| stored := save groups group; status := 200;
           body := JsonLeft "You have left the group" group |}
  end.

(** [Group.findByIdAndDelete(groupId)]: the first document with the id
    goes. *)
Fixpoint findByIdAndDelete (groups : list Group) (groupId : string)
  : list Group :=
  match groups with
  | [] => []
  | g :: groups' =>
      if String.eqb (_id g) groupId then groups'
      else g :: findByIdAndDelete groups' groupId
  end.

Definition deleteGroup (groups : list Group) (groupId : string) : Outcome :=
  match findById groups groupId with
  | None => {| stored := groups; status := 404;
               body := JsonMessage "Group not found" |}
  | Some _ =>
      {| stored := findByIdAndDelete groups groupId; status := 200;
         body := JsonMessage "Group deleted successfully" |}
  end.

End GroupController.

(** * Properties *)

(** ** JavaScript helpers *)

Lemma strict_eq_spec a b : JS.strict_eq a b = true ↔ a = b.
Proof.
  destruct a as [x|], b as [y|]; simpl; try (split; congruence).
  rewrite String.eqb_eq. split; congruence.
Qed.

Lemma strict_eq_refl a : JS.strict_eq a a = true.
Proof. by apply strict_eq_spec. Qed.

Lemma truthy_Some v : JS.truthy v = true ↔ ∃ s, v = Some s ∧ JS.nonempty s = true.
Proof.
  destruct v as [s|]; simpl.
  - split; [by exists s | by intros (? & [= <-] & ?)].
  - split; [done | by intros (? & ? & ?)].
Qed.

Lemma when_truthy_false {A} v (f : string → A) d :
  JS.truthy v = false → JS.when_truthy v f d = d.
Proof. destruct v as [s|]; simpl; [by intros -> | done]. Qed.

Lemma when_truthy_true {A} s (f : string → A) d :
  JS.nonempty s = true → JS.when_truthy (Some s) f d = f s.
Proof. simpl. by intros ->. Qed.

Lemma or_null_None v : JS.truthy v = false → JS.or_null v = None.
Proof. unfold JS.or_null. by intros ->. Qed.

Example trim_inner_space : JS.trim "  hi there " = "hi there".
Proof. reflexivity. Qed.

Example blank_text_is_falsy : JS.truthy_trim (Some "   ") = false.
Proof. reflexivity. Qed.

(** ** The text transform of the model *)

Lemma rotate_inverse c : Caesar.rotate 22 (Caesar.rotate 4 c) = c.
Proof. by destruct c as [[] [] [] [] [] [] [] []]. Qed.

Lemma Caesar_reveal_obscure t :
  Caesar.decryptCaesar (Caesar.encryptCaesar t) = t.
Proof.
  unfold Caesar.decryptCaesar, Caesar.encryptCaesar.
  induction t as [|c t IH]; simpl; [done|].
  by rewrite rotate_inverse, IH.
Qed.

Lemma Caesar_obscure_nonempty t :
  JS.nonempty t = true → JS.nonempty (Caesar.encryptCaesar t) = true.
Proof. by destruct t. Qed.

Example obscure_hi : Caesar.encryptCaesar "Hi, Zoe!" = "Lm, Dsi!".
Proof. reflexivity. Qed.

(** ** The message controller *)

Section ControllerFacts.

Import Server.

Variable encryptCaesar decryptCaesar : string → string.
Variable analyze : string → string → option AnalysisResult.
Variable cloudinary_upload : string → option (option string).
Variable getReceiverSocketId : option string → option string.
Variable Group_findOne : string → string → bool.
Variable Reaction_find : string → list Reaction.

Abbreviation sendMessage :=
  (Server.sendMessage encryptCaesar decryptCaesar analyze cloudinary_upload
     getReceiverSocketId).
Abbreviation editMessage :=
  (Server.editMessage encryptCaesar decryptCaesar getReceiverSocketId
     Group_findOne).
Abbreviation deleteMessage :=
  (Server.deleteMessage getReceiverSocketId Group_findOne).
Abbreviation pinMessage :=
  (Server.pinMessage decryptCaesar getReceiverSocketId Group_findOne).
Abbreviation forbidden := (Server.forbidden Group_findOne).
Abbreviation emitUpdate := (Server.emitUpdate getReceiverSocketId).
Abbreviation reveal := (Server.reveal decryptCaesar).

(** *** The collection *)

Lemma findById_id db id m : findById db id = Some m → _id m = id.
Proof.
  unfold findById. intros H. apply find_some in H as [_ H].
  by apply String.eqb_eq.
Qed.

Lemma findById_In db id m : findById db id = Some m → In m db.
Proof. unfold findById. intros H. by apply find_some in H as [H _]. Qed.

(** A saved document is the one read back under its id. *)
Lemma findById_save db id m m' :
  findById db id = Some m → _id m' = id →
  findById (save db m') id = Some m'.
Proof.
  unfold findById, save. intros Hfind <-.
  induction db as [|x db IH]; simpl in *; [done|].
  destruct (String.eqb (_id x) (_id m')) eqn:Hx; simpl.
  - by rewrite String.eqb_refl.
  - rewrite Hx. by apply IH.
Qed.

(** Documents with another id are not touched by [save]. *)
Lemma findById_save_other db id m' :
  _id m' ≠ id → findById (save db m') id = findById db id.
Proof.
  unfold findById, save. intros Hne.
  induction db as [|x db IH]; simpl; [done|].
  destruct (String.eqb (_id x) (_id m')) eqn:Hx; simpl.
  - apply String.eqb_eq in Hx. rewrite Hx.
    apply String.eqb_neq in Hne. by rewrite Hne.
  - by rewrite IH.
Qed.

Lemma finish_stored db' es ok : stored (finish db' es ok) = db'.
Proof. by destruct es. Qed.

Lemma emitUpdate_event ev message userId p es :
  emitUpdate ev message userId p = Some es →
  Forall (λ e, event e = ev ∧ payload e = p) es.
Proof.
  unfold Server.emitUpdate, JS.when_truthy, Server.emitTo, JS.when_truthy.
  intros H.
  repeat match type of H with
         | context [match ?x with _ => _ end] => destruct x
         end; simplify_eq; repeat constructor.
Qed.

(** The audience of an update to a direct message: the socket found for
    the receiver, then the socket found for the requester. *)
Lemma emitUpdate_direct ev message userId p r :
  JS.truthy (groupId message) = false →
  receiverId message = Some r →
  emitUpdate ev message userId p
  = Some (emitTo (getReceiverSocketId (Some r)) ev p
          ++ emitTo (getReceiverSocketId (Some userId)) ev p).
Proof.
  intros Hg Hr. unfold Server.emitUpdate.
  by rewrite when_truthy_false, Hr.
Qed.

(** *** sendMessage *)

(** C6. A send whose text is absent (or blank) and whose image is absent
    is answered 400 "Message must contain text or image": the collection
    is the one before the request and no event is emitted. *)
Theorem sendMessage_rejects_empty_payload db b receiverId senderId newId now :
  JS.truthy_trim (body_text b) = false →
  JS.truthy (body_image b) = false →
  sendMessage db b receiverId senderId newId now
  = {| stored := db; emitted := [];
       response := {| status := 400;
                      body := JsonText "message"
                                "Message must contain text or image" |} |}.
Proof.
  intros Htext Himage. unfold Server.sendMessage. by rewrite Htext, Himage.
Qed.

(** A send that passes the check stores exactly one new document, whose
    text is the obscured request text. *)
Lemma sendMessage_stores db b receiverId senderId newId now :
  JS.truthy_trim (body_text b) || JS.truthy (body_image b) = true →
  let out := sendMessage db b receiverId senderId newId now in
  status (response out) = 201
  ∧ stored out
    = db ++ [newMessage encryptCaesar analyze cloudinary_upload b receiverId
               senderId newId now].
Proof.
  intros H. unfold Server.sendMessage.
  destruct (JS.truthy_trim (body_text b)), (JS.truthy (body_image b));
    simpl in *; try done.
Qed.

(** C7, as the code has it. When the classification of the text throws,
    the send is answered 201 with the message and one document is
    stored; its sentiment is the [sentiment] of the request when the
    client sent one, "neutral" otherwise, marked as a fallback with
    confidence 0, and its toxicity verdict is the non-toxic default. *)
Theorem sendMessage_classification_fallback
    db b t receiverId senderId newId now :
  body_text b = Some t →
  JS.nonempty (JS.trim t) = true →
  analyze t (JS.or_default (body_selectedModel b) "svc") = None →
  let out := sendMessage db b receiverId senderId newId now in
  ∃ m obj,
    stored out = db ++ [m]
    ∧ response out = {| status := 201; body := JsonMessage obj |}
    ∧ sentiment m = JS.or_default (body_sentiment b) "neutral"
    ∧ (JS.truthy (body_sentiment b) = false → sentiment m = "neutral")
    ∧ source (sentimentAnalysis m) = "fallback"
    ∧ confidence (sentimentAnalysis m) = 0
    ∧ toxicity m = noToxicity
    ∧ sentiment (fields (self obj)) = sentiment m.
Proof.
  intros Htext Htrim Hfail out. subst out. unfold Server.sendMessage.
  assert (JS.truthy_trim (body_text b) = true) as ->
    by (by rewrite Htext; simpl).
  simpl. eexists _, _. split; [reflexivity|]. split; [reflexivity|].
  unfold newMessage, analyse. rewrite Htext, Htrim, Hfail. simpl.
  repeat split; try done.
  - destruct (body_sentiment b) as [[|c r]|]; simpl; done.
  - unfold Server.reveal. simpl.
    by destruct (JS.truthy _).
Qed.

(** *** deleteMessage *)

(** C5. Deleting an existing message as one of its participants stores
    the document with [isDeleted] set and [text] cleared, so that the
    reveal step finds nothing to reveal; image, sentiment verdicts and
    toxicity verdict (and every other field) are the ones it had. *)
Theorem deleteMessage_tombstone db messageId userId message :
  findById db messageId = Some message →
  forbidden message userId = false →
  let out := deleteMessage db messageId userId in
  ∃ m',
    findById (stored out) messageId = Some m'
    ∧ isDeleted m' = true
    ∧ text m' = None
    ∧ text (fields (reveal m')) = None
    ∧ image m' = image message
    ∧ sentiment m' = sentiment message
    ∧ sentimentAnalysis m' = sentimentAnalysis message
    ∧ toxicity m' = toxicity message
    ∧ m' = set_text None (set_isDeleted true message).
Proof.
  intros Hfind Hperm out. subst out. unfold Server.deleteMessage.
  rewrite Hfind, Hperm, finish_stored.
  exists (set_text None (set_isDeleted true message)).
  split.
  - eapply findById_save; [exact Hfind|]. simpl. by eapply findById_id.
  - unfold Server.reveal. simpl. rewrite andb_false_r. done.
Qed.

(** *** editMessage *)

(** C10. Editing an existing message as one of its participants with an
    absent or empty text is never answered 400: the document is stored
    with a null text and [edited] set. When the message has a group or a
    receiver the answer is 200 with that message, and the
    [messageEdited] event goes out as for any other edit: to the group's
    room, or to the sockets found for the receiver and for the
    requester. *)
Theorem editMessage_empty_text db messageId newText userId message :
  findById db messageId = Some message →
  forbidden message userId = false →
  JS.truthy newText = false →
  let out := editMessage db messageId newText userId in
  ∃ m',
    findById (stored out) messageId = Some m'
    ∧ text m' = None
    ∧ edited m' = true
    ∧ status (response out) ≠ 400
    ∧ (JS.truthy (groupId message) = true ∨ is_Some (receiverId message) →
       ∃ obj,
         fields (self obj) = m'
         ∧ response out = {| status := 200; body := JsonMessage obj |}
         ∧ emitUpdate "messageEdited" m' userId obj = Some (emitted out)
         ∧ Forall (λ e, event e = "messageEdited" ∧ payload e = obj)
             (emitted out)
         ∧ (∀ g, groupId message = Some g → JS.nonempty g = true →
            emitted out = [{| target := Room g; event := "messageEdited";
                              payload := obj |}])).
Proof.
  intros Hfind Hperm Hempty out. subst out. unfold Server.editMessage.
  unfold Server.encryptedText.
  rewrite Hfind, Hperm, (when_truthy_false newText) by done.
  set (m' := set_edited true (set_text None message)).
  set (obj := {| self := reveal m'; replyToObj := _ |}).
  exists m'. rewrite finish_stored.
  split; [|split; [done|split; [done|split]]].
  - eapply findById_save; [exact Hfind|]. simpl. by eapply findById_id.
  - destruct (emitUpdate _ _ _ _); simpl; done.
  - intros Haud. exists obj.
    assert (fields (self obj) = m') as Hobj.
    { subst obj. unfold Server.reveal. simpl. by rewrite andb_false_r. }
    split; [done|].
    destruct (emitUpdate "messageEdited" m' userId obj) as [es|] eqn:Hemit.
    + simpl. split; [done|]. split; [done|].
      split; [by eapply emitUpdate_event|].
      intros g Hg Hne. unfold Server.emitUpdate in Hemit.
      subst m'. simpl in Hemit. rewrite Hg in Hemit.
      rewrite when_truthy_true in Hemit by done. by simplify_eq.
    + exfalso. unfold Server.emitUpdate in Hemit. subst m'. simpl in Hemit.
      destruct Haud as [Hg | [r Hr]].
      * apply truthy_Some in Hg as (g & Hg & Hne). rewrite Hg in Hemit.
        by rewrite when_truthy_true in Hemit.
      * rewrite Hr in Hemit. unfold JS.when_truthy in Hemit.
        by repeat case_match.
Qed.

(** *** getMessages *)

Definition earlier (a b : Message) : Prop := createdAt a ≤ createdAt b.

Lemma insertByCreatedAt_perm m l : insertByCreatedAt m l ≡ₚ m :: l.
Proof.
  induction l as [|x l IH]; simpl; [done|].
  destruct (createdAt m <=? createdAt x); [done|].
  by rewrite IH, Permutation_swap.
Qed.

Lemma sortByCreatedAt_perm l : sortByCreatedAt l ≡ₚ l.
Proof.
  induction l as [|x l IH]; simpl; [done|].
  by rewrite insertByCreatedAt_perm, IH.
Qed.

Lemma insertByCreatedAt_HdRel a m l :
  earlier a m → HdRel earlier a l → HdRel earlier a (insertByCreatedAt m l).
Proof.
  intros Ham Hal. destruct l as [|x l]; simpl; [by constructor|].
  destruct (createdAt m <=? createdAt x); constructor; [done|].
  by inversion Hal.
Qed.

Lemma insertByCreatedAt_sorted m l :
  Sorted earlier l → Sorted earlier (insertByCreatedAt m l).
Proof.
  induction 1 as [|x l Hl IH Hhd]; simpl; [by repeat constructor|].
  destruct (createdAt m <=? createdAt x) eqn:Hle.
  - constructor; [by constructor|]. constructor.
    unfold earlier. lia.
  - constructor; [done|].
    apply insertByCreatedAt_HdRel; [|done]. unfold earlier. lia.
Qed.

Lemma sortByCreatedAt_sorted l : Sorted earlier (sortByCreatedAt l).
Proof.
  induction l as [|x l IH]; simpl; [constructor|].
  by apply insertByCreatedAt_sorted.
Qed.

Lemma conversation_elem db userToChatId groupId myId m :
  m ∈ conversation db userToChatId groupId myId → m ∈ db.
Proof.
  unfold conversation, JS.when_truthy.
  rewrite !list_elem_of_In. intros H.
  repeat case_match; by apply filter_In in H as [H _].
Qed.

(** Which documents the query selects: those of the group when a group
    id is given, otherwise those exchanged, in either direction, between
    the requester and the peer. *)
Lemma conversation_spec db userToChatId groupId myId m :
  m ∈ conversation db userToChatId groupId myId ↔
  m ∈ db
  ∧ match groupId with
    | Some g =>
        if JS.nonempty g then Server.groupId m = Some g
        else (senderId m = myId ∧ receiverId m = Some userToChatId)
             ∨ (senderId m = userToChatId ∧ receiverId m = Some myId)
    | None =>
        (senderId m = myId ∧ receiverId m = Some userToChatId)
        ∨ (senderId m = userToChatId ∧ receiverId m = Some myId)
    end.
Proof.
  assert (between myId userToChatId m = true ↔
          (senderId m = myId ∧ receiverId m = Some userToChatId)
          ∨ (senderId m = userToChatId ∧ receiverId m = Some myId)) as Hb.
  { unfold between.
    rewrite orb_true_iff, !andb_true_iff, !String.eqb_eq, !strict_eq_spec.
    done. }
  unfold conversation, JS.when_truthy. rewrite !list_elem_of_In.
  repeat case_match; rewrite filter_In, ?Hb; try done.
  unfold inGroup. by rewrite strict_eq_spec.
Qed.

Section History.

(** The two facts about the text transform the history relies on: reveal
    undoes obscure, and the token of a non-empty text is not empty (a
    substitution keeps the length). *)
Hypothesis reveal_obscure : ∀ t, decryptCaesar (encryptCaesar t) = t.
Hypothesis obscure_nonempty :
  ∀ t, JS.nonempty t = true → JS.nonempty (encryptCaesar t) = true.

(** The collection holds, for every document, the token of the text
    [original] gives for its id: what [sendMessage] and [editMessage]
    write. *)
Definition Obscured (original : string → option string) (db : Collection)
  : Prop :=
  Forall (λ m, isEncrypted m = true
               ∧ text m = Server.encryptedText encryptCaesar
                            (original (_id m))) db.

Lemma reveal_obscured m o :
  isEncrypted m = true →
  text m = Server.encryptedText encryptCaesar o →
  fields (reveal m) = set_text (JS.or_null o) m.
Proof.
  intros Henc Htext. unfold Server.reveal, Server.encryptedText in *.
  rewrite Henc, Htext. unfold JS.or_null.
  destruct (JS.truthy o) eqn:Ho.
  - apply truthy_Some in Ho as (t & -> & Ht).
    rewrite when_truthy_true by done. simpl.
    rewrite obscure_nonempty by done. simpl. by rewrite reveal_obscure.
  - rewrite when_truthy_false in * by done. simpl.
    destruct m; simpl in *. by subst.
Qed.

(** C9. For a peer id or a group id, the history answer is 200 with the
    documents the query selects for that conversation, each exactly once,
    in ascending order of [createdAt]; the text of each, and the text of
    the message it replies to when that one is found, is the text that
    was obscured when it was stored. *)
Theorem getMessages_history db original userToChatId groupId myId :
  Obscured original db →
  ∃ entries,
    Server.getMessages decryptCaesar Reaction_find db userToChatId groupId
      myId
    = {| stored := db; emitted := [];
         response := {| status := 200; body := JsonHistory entries |} |}
    ∧ (fields ∘ self ∘ messageObj) <$> entries
      ≡ₚ (λ m, set_text (JS.or_null (original (_id m))) m)
         <$> conversation db userToChatId groupId myId
    ∧ Sorted earlier ((fields ∘ self ∘ messageObj) <$> entries)
    ∧ Forall (λ e,
        text (fields (self (messageObj e)))
        = JS.or_null (original (_id (fields (self (messageObj e)))))
        ∧ ∀ r, replyToObj (messageObj e) = Some r →
               text (fields r) = JS.or_null (original (_id (fields r))))
        entries.
Proof.
  intros Hdb. unfold Obscured in Hdb. rewrite Forall_forall in Hdb.
  eexists. split; [reflexivity|].
  set (conv := conversation db userToChatId groupId myId).
  assert (∀ m, m ∈ sortByCreatedAt conv → m ∈ db) as Hin.
  { intros m Hm. rewrite sortByCreatedAt_perm in Hm.
    by eapply conversation_elem. }
  assert ((fields ∘ self ∘ messageObj)
            <$> List.map (historyEntry decryptCaesar Reaction_find db)
                  (sortByCreatedAt conv)
          = (λ m, set_text (JS.or_null (original (_id m))) m)
            <$> sortByCreatedAt conv) as Heq.
  { change (List.map ?f ?l) with (f <$> l). rewrite <- list_fmap_compose.
    apply Forall_fmap_ext_1, Forall_forall. intros m Hm. simpl.
    apply Hin, Hdb in Hm as [Henc Htext]. by apply reveal_obscured. }
  split; [|split].
  - by rewrite Heq, sortByCreatedAt_perm.
  - rewrite Heq. eapply Sorted_fmap; [|apply sortByCreatedAt_sorted].
    by intros x y.
  - apply Forall_forall. intros e He.
    change (List.map ?f ?l) with (f <$> l) in He.
    apply list_elem_of_fmap in He as (m & -> & Hm). simpl.
    apply Hin in Hm. pose proof (Hdb _ Hm) as [Henc Htext].
    rewrite (reveal_obscured _ _ Henc Htext). simpl. split; [done|].
    intros r Hr. unfold populateReplyTo, JS.when_truthy in Hr.
    repeat case_match; simplify_eq/=.
    destruct (findById db _) as [x|] eqn:Hx; simplify_eq/=.
    apply findById_In, list_elem_of_In, Hdb in Hx as [Henc' Htext'].
    by rewrite (reveal_obscured _ _ Henc' Htext').
Qed.

(** [Obscured] is what the controller maintains: a send adds the token
    of the text it was given, an edit replaces it by the token of the new
    text. *)
Lemma sendMessage_Obscured original db b receiverId senderId newId now :
  Obscured original db →
  Forall (λ m, _id m ≠ newId) db →
  Obscured (λ i, if String.eqb i newId then body_text b else original i)
    (stored (sendMessage db b receiverId senderId newId now)).
Proof.
  intros Hdb Hfresh. unfold Server.sendMessage, Obscured in *.
  assert (Forall (λ m, isEncrypted m = true
                       ∧ text m = Server.encryptedText encryptCaesar
                           (if String.eqb (_id m) newId then body_text b
                            else original (_id m))) db) as Hdb'.
  { rewrite Forall_forall in *. intros m Hm.
    destruct (Hdb m Hm) as [? ?]. specialize (Hfresh m Hm).
    apply String.eqb_neq in Hfresh. by rewrite Hfresh. }
  case_match; simpl; [done|].
  apply Forall_app. split; [done|]. constructor; [|done]. simpl.
  by rewrite String.eqb_refl.
Qed.

Lemma editMessage_Obscured original db messageId newText userId message :
  Obscured original db →
  findById db messageId = Some message →
  forbidden message userId = false →
  Obscured (λ i, if String.eqb i messageId then newText else original i)
    (stored (editMessage db messageId newText userId)).
Proof.
  intros Hdb Hfind Hperm. unfold Server.editMessage, Obscured in *.
  rewrite Hfind, Hperm, finish_stored.
  pose proof (findById_id _ _ _ Hfind) as Hid.
  pose proof (findById_In _ _ _ Hfind) as Hin.
  apply list_elem_of_In in Hin.
  rewrite Forall_forall in Hdb. destruct (Hdb _ Hin) as [Henc _].
  unfold save. apply Forall_forall. intros x Hx.
  change (List.map ?f ?l) with (f <$> l) in Hx.
  apply list_elem_of_fmap in Hx as (y & -> & Hy). simpl.
  destruct (String.eqb (_id y) (_id message)) eqn:Hyid; simpl.
  - by rewrite Hid, String.eqb_refl.
  - rewrite <- Hid, Hyid. by apply Hdb.
Qed.

Lemma deleteMessage_Obscured original db messageId userId message :
  Obscured original db →
  findById db messageId = Some message →
  forbidden message userId = false →
  Obscured (λ i, if String.eqb i messageId then None else original i)
    (stored (deleteMessage db messageId userId)).
Proof.
  intros Hdb Hfind Hperm. unfold Server.deleteMessage, Obscured in *.
  rewrite Hfind, Hperm, finish_stored.
  pose proof (findById_id _ _ _ Hfind) as Hid.
  pose proof (findById_In _ _ _ Hfind) as Hin.
  apply list_elem_of_In in Hin.
  rewrite Forall_forall in Hdb. destruct (Hdb _ Hin) as [Henc _].
  unfold save. apply Forall_forall. intros x Hx.
  change (List.map ?f ?l) with (f <$> l) in Hx.
  apply list_elem_of_fmap in Hx as (y & -> & Hy). simpl.
  destruct (String.eqb (_id y) (_id message)) eqn:Hyid; simpl.
  - by rewrite Hid, String.eqb_refl.
  - rewrite <- Hid, Hyid. by apply Hdb.
Qed.

Lemma pinMessage_Obscured original db messageId userId :
  Obscured original db →
  Obscured original (stored (pinMessage db messageId userId)).
Proof.
  intros Hdb. unfold Server.pinMessage, Obscured in *.
  destruct (findById db messageId) as [message|] eqn:Hfind; [|done].
  destruct (forbidden message userId); [done|]. rewrite finish_stored.
  pose proof (findById_In _ _ _ Hfind) as Hin.
  apply list_elem_of_In in Hin.
  rewrite Forall_forall in Hdb. pose proof (Hdb _ Hin) as Hmsg.
  unfold save. apply Forall_forall. intros x Hx.
  change (List.map ?f ?l) with (f <$> l) in Hx.
  apply list_elem_of_fmap in Hx as (y & -> & Hy). simpl.
  destruct (String.eqb (_id y) (_id message)); simpl; [done|].
  by apply Hdb.
Qed.

End History.

End ControllerFacts.

(** *** A direct message edited, deleted and pinned by its receiver *)

(** X sent "hi" to Y; both are connected, X on socket [sx], Y on [sy],
    and there is no group. *)
Definition hi_from_X_to_Y : Server.Message :=
  {| Server._id := "m1"; Server.senderId := "X";
     Server.receiverId := Some "Y"; Server.groupId := None;
     Server.text := Some (Caesar.encryptCaesar "hi"); Server.image := None;
     Server.sentiment := "neutral";
     Server.sentimentAnalysis :=
       Server.res_sentiment Server.defaultAnalysis;
     Server.sentimentOverridden := false;
     Server.toxicity := Server.noToxicity; Server.replyTo := None;
     Server.isEncrypted := true; Server.encryptionMethod := "caesar";
     Server.encryptionKey := 4; Server.edited := false;
     Server.isDeleted := false; Server.pinned := false;
     Server.createdAt := 1000 |}.

Definition X_and_Y_connected (userId : option string) : option string :=
  match userId with
  | Some u =>
      if String.eqb u "X" then Some "sx"
      else if String.eqb u "Y" then Some "sy" else None
  | None => None
  end.

Definition no_groups (g u : string) : bool := false.

(** C1, on the code. When the receiver Y of a direct message edits,
    deletes or pins it, each handler answers 200 and sends its event
    twice to Y's socket and not at all to the socket of the sender X,
    who is connected: the second socket is looked up for the requester,
    not for the sender of the message. *)
Theorem direct_update_by_receiver_misses_sender
    (encryptCaesar decryptCaesar : string → string) :
  let db := [hi_from_X_to_Y] in
  let edit := Server.editMessage encryptCaesar decryptCaesar
                X_and_Y_connected no_groups db "m1" (Some "hello") "Y" in
  let del := Server.deleteMessage X_and_Y_connected no_groups db "m1" "Y" in
  let pin := Server.pinMessage decryptCaesar X_and_Y_connected no_groups
               db "m1" "Y" in
  X_and_Y_connected (Some (Server.senderId hi_from_X_to_Y)) = Some "sx"
  ∧ X_and_Y_connected (Server.receiverId hi_from_X_to_Y) = Some "sy"
  ∧ Server.status (Server.response edit) = 200
  ∧ Server.target <$> Server.emitted edit
    = [Server.Socket "sy"; Server.Socket "sy"]
  ∧ Server.status (Server.response del) = 200
  ∧ Server.target <$> Server.emitted del
    = [Server.Socket "sy"; Server.Socket "sy"]
  ∧ Server.status (Server.response pin) = 200
  ∧ Server.target <$> Server.emitted pin
    = [Server.Socket "sy"; Server.Socket "sy"].
Proof. repeat split. Qed.

(** When the sender makes the request, the same lookups give the two
    sockets the message names. *)
Lemma direct_update_by_sender_reaches_both
    (encryptCaesar decryptCaesar : string → string) :
  let db := [hi_from_X_to_Y] in
  Server.target
    <$> Server.emitted
          (Server.editMessage encryptCaesar decryptCaesar X_and_Y_connected
             no_groups db "m1" (Some "hello") "X")
  = [Server.Socket "sy"; Server.Socket "sx"].
Proof. reflexivity. Qed.

(** *** The controller on concrete requests *)

Definition never_classifies (text model : string)
  : option Server.AnalysisResult := None.

Definition upload_fails (image : string) : option (option string) := None.

Definition no_reactions (messageId : string) : list Server.Reaction := [].

Definition empty_send : Server.SendBody :=
  {| Server.body_text := None; Server.body_image := None;
     Server.body_groupId := None; Server.body_sentiment := None;
     Server.body_replyTo := None; Server.body_selectedModel := None |}.

(** The client labels its text "positive" itself. *)
Definition hi_labelled_positive : Server.SendBody :=
  {| Server.body_text := Some "hi"; Server.body_image := None;
     Server.body_groupId := None; Server.body_sentiment := Some "positive";
     Server.body_replyTo := None; Server.body_selectedModel := None |}.

Definition hi_unlabelled : Server.SendBody :=
  {| Server.body_text := Some "hi"; Server.body_image := None;
     Server.body_groupId := None; Server.body_sentiment := None;
     Server.body_replyTo := None; Server.body_selectedModel := None |}.

Lemma sendMessage_rejects_empty_payload_witness :
  Server.sendMessage Caesar.encryptCaesar Caesar.decryptCaesar
    never_classifies upload_fails X_and_Y_connected
    [hi_from_X_to_Y] empty_send (Some "Y") "X" "m2" 2000
  = {| Server.stored := [hi_from_X_to_Y]; Server.emitted := [];
       Server.response :=
         {| Server.status := 400;
            Server.body := Server.JsonText "message"
                             "Message must contain text or image" |} |}.
Proof.
  apply (sendMessage_rejects_empty_payload Caesar.encryptCaesar
           Caesar.decryptCaesar never_classifies upload_fails
           X_and_Y_connected [hi_from_X_to_Y] empty_send (Some "Y") "X" "m2"
           2000); reflexivity.
Defined.

(** C7 as the design document words it: whenever the classification of
    the text of a send throws, the send is answered 201 and the stored
    sentiment is "neutral". *)
Definition neutral_on_classification_failure : Prop :=
  ∀ encryptCaesar decryptCaesar analyze cloudinary_upload getReceiverSocketId
    db b t receiverId senderId newId now,
    Server.body_text b = Some t →
    JS.nonempty (JS.trim t) = true →
    analyze t (JS.or_default (Server.body_selectedModel b) "svc") = None →
    let out := Server.sendMessage encryptCaesar decryptCaesar analyze
                 cloudinary_upload getReceiverSocketId db b receiverId
                 senderId newId now in
    Server.status (Server.response out) = 201
    ∧ ∃ m, Server.stored out = db ++ [m] ∧ Server.sentiment m = "neutral".

(** It fails on [hi_labelled_positive]: with the classifier down, the
    message is stored with the sentiment "positive" the request carried. *)
Lemma classification_fallback_keeps_client_sentiment :
  ¬ neutral_on_classification_failure.
Proof.
  intros H.
  destruct (H Caesar.encryptCaesar Caesar.decryptCaesar never_classifies
              upload_fails X_and_Y_connected [] hi_labelled_positive "hi"
              (Some "Y") "X" "m2" 2000 eq_refl eq_refl eq_refl)
    as (_ & m & Hstored & Hneutral).
  simpl in Hstored. injection Hstored as <-. discriminate Hneutral.
Qed.

Lemma sendMessage_classification_fallback_witness :
  ∃ m obj,
    Server.stored
      (Server.sendMessage Caesar.encryptCaesar Caesar.decryptCaesar
         never_classifies upload_fails X_and_Y_connected [] hi_unlabelled
         (Some "Y") "X" "m2" 2000) = [] ++ [m]
    ∧ Server.response
        (Server.sendMessage Caesar.encryptCaesar Caesar.decryptCaesar
           never_classifies upload_fails X_and_Y_connected [] hi_unlabelled
           (Some "Y") "X" "m2" 2000)
      = {| Server.status := 201; Server.body := Server.JsonMessage obj |}
    ∧ Server.sentiment m = "neutral".
Proof.
  destruct (sendMessage_classification_fallback Caesar.encryptCaesar
              Caesar.decryptCaesar never_classifies upload_fails
              X_and_Y_connected [] hi_unlabelled "hi" (Some "Y") "X" "m2"
              2000 eq_refl eq_refl eq_refl)
    as (m & obj & Hstored & Hresp & _ & Hneutral & _).
  exists m, obj. split; [exact Hstored|]. split; [exact Hresp|].
  apply Hneutral. reflexivity.
Defined.

Lemma deleteMessage_tombstone_witness :
  ∃ m',
    Server.findById
      (Server.stored
         (Server.deleteMessage X_and_Y_connected no_groups [hi_from_X_to_Y]
            "m1" "Y")) "m1" = Some m'
    ∧ Server.isDeleted m' = true
    ∧ Server.text m' = None
    ∧ Server.image m' = Server.image hi_from_X_to_Y
    ∧ Server.toxicity m' = Server.toxicity hi_from_X_to_Y.
Proof.
  destruct (deleteMessage_tombstone Caesar.decryptCaesar X_and_Y_connected
              no_groups [hi_from_X_to_Y] "m1" "Y" hi_from_X_to_Y eq_refl
              eq_refl)
    as (m' & Hfind & Hdel & Htext & _ & Himage & _ & _ & Htox & _).
  exists m'. repeat split; assumption.
Defined.

Lemma editMessage_empty_text_witness :
  ∃ m',
    Server.findById
      (Server.stored
         (Server.editMessage Caesar.encryptCaesar Caesar.decryptCaesar
            X_and_Y_connected no_groups [hi_from_X_to_Y] "m1" (Some EmptyString)
            "X")) "m1" = Some m'
    ∧ Server.text m' = None
    ∧ Server.edited m' = true.
Proof.
  destruct (editMessage_empty_text Caesar.encryptCaesar Caesar.decryptCaesar
              X_and_Y_connected no_groups [hi_from_X_to_Y] "m1" (Some EmptyString)
              "X" hi_from_X_to_Y eq_refl eq_refl eq_refl)
    as (m' & Hfind & Htext & Hedited & _).
  exists m'. repeat split; assumption.
Defined.

Definition original_of_m1 (messageId : string) : option string :=
  if String.eqb messageId "m1" then Some "hi" else None.

Lemma getMessages_history_witness :
  ∃ entries,
    Server.getMessages Caesar.decryptCaesar no_reactions [hi_from_X_to_Y]
      "X" None "Y"
    = {| Server.stored := [hi_from_X_to_Y]; Server.emitted := [];
         Server.response :=
           {| Server.status := 200;
              Server.body := Server.JsonHistory entries |} |}
    ∧ Forall (λ e,
        Server.text (Server.fields (Server.self (Server.messageObj e)))
        = Some "hi") entries.
Proof.
  assert (Obscured Caesar.encryptCaesar original_of_m1 [hi_from_X_to_Y])
    as Hdb by (repeat constructor).
  destruct (getMessages_history Caesar.encryptCaesar Caesar.decryptCaesar
              no_reactions Caesar_reveal_obscure Caesar_obscure_nonempty
              [hi_from_X_to_Y] original_of_m1 "X" None "Y" Hdb)
    as (entries & Hres & _ & _ & Htexts).
  exists entries. split; [exact Hres|].
  simpl in Hres. injection Hres as <-.
  repeat constructor.
Defined.

(** ** The chat store *)

Section Reconciliation.

Import Client.

(** *** Edited, deleted and pinned events *)

Lemma replaceById_length m l : length (replaceById m l) = length l.
Proof. unfold replaceById. apply length_map. Qed.

Lemma replaceById_lookup m l i :
  replaceById m l !! i
  = (λ msg, if String.eqb (_id msg) (_id m) then m else msg) <$> l !! i.
Proof. unfold replaceById. apply list_lookup_fmap. Qed.

Lemma replaceById_idempotent m l :
  replaceById m (replaceById m l) = replaceById m l.
Proof.
  unfold replaceById. induction l as [|x l IH]; simpl; [done|].
  rewrite IH. f_equal.
  destruct (String.eqb (_id x) (_id m)) eqn:Hx; [|by rewrite Hx].
  by rewrite String.eqb_refl.
Qed.

Lemma replaceById_no_match m l :
  Forall (λ msg, _id msg ≠ _id m) l → replaceById m l = l.
Proof.
  unfold replaceById. induction 1 as [|x l Hx _ IH]; simpl; [done|].
  apply String.eqb_neq in Hx. by rewrite Hx, IH.
Qed.

Lemma set_messages_same w : set_messages (messages w) w = w.
Proof. by destruct w. Qed.

(** The properties of one of the three listeners, which share their
    body. *)
Definition UpsertById (handler : Message → World → World) : Prop :=
  ∀ m w,
    (** the list keeps its length, and position by position an entry
        with the id of [m] becomes [m], whole, and any other stays *)
    length (messages (handler m w)) = length (messages w)
    ∧ (∀ i msg, messages w !! i = Some msg →
         (_id msg = _id m → messages (handler m w) !! i = Some m)
         ∧ (_id msg ≠ _id m → messages (handler m w) !! i = Some msg))
    (** delivering the event again changes nothing *)
    ∧ handler m (handler m w) = handler m w
    (** an id that matches no entry: nothing changes *)
    ∧ (Forall (λ msg, _id msg ≠ _id m) (messages w) → handler m w = w)
    (** nothing but the list is touched *)
    ∧ handler m w = set_messages (messages (handler m w)) w.

Lemma replaceById_UpsertById :
  UpsertById (λ m w, set_messages (replaceById m (messages w)) w).
Proof.
  intros m w. simpl. split; [apply replaceById_length|].
  split; [|split; [|split]].
  - intros i msg Hi. rewrite replaceById_lookup, Hi. simpl.
    split; intros Hid.
    + apply String.eqb_eq in Hid. by rewrite Hid.
    + apply String.eqb_neq in Hid. by rewrite Hid.
  - unfold set_messages. simpl. by rewrite replaceById_idempotent.
  - intros Hno. rewrite replaceById_no_match by done.
    apply set_messages_same.
  - done.
Qed.

(** C4. The [messageEdited], [messageDeleted] and [messagePinned]
    listeners each replace the entries whose id is the id of the incoming
    message by that message and leave every other entry, and the length
    of the list, as they were; applying the same event twice gives the
    state that applying it once gives, and an event whose id matches no
    entry leaves the state unchanged. *)
Theorem update_events_upsert_by_id :
  UpsertById run_messageEditedHandler
  ∧ UpsertById run_messageDeletedHandler
  ∧ UpsertById run_messagePinnedHandler.
Proof. split; [|split]; apply replaceById_UpsertById. Qed.

(** *** Created events *)

(** The conversation a store is showing, in the words of the design
    document: a group, or the pair of the local user and the selected
    peer. *)
Inductive Conversation :=
| Group (g : string)
| DirectPair (a b : string).

Definition activeConversation (w : World) : option Conversation :=
  match selectedUser w, authUser w with
  | Some sel, Some auth =>
      Some (JS.when_truthy (SelectedUser.groupId sel) Group
              (DirectPair (AuthUser._id auth) (SelectedUser._id sel)))
  | _, _ => None
  end.

(** The user a reference names. *)
Definition identity (r : UserRef) : option string :=
  match r with
  | Id s | Populated s => Some s
  | Missing | Null => None
  end.

(** Relevance as the design document defines it: the message carries the
    group id of the conversation, or it has a sender and a receiver and
    they are the two users of the direct pair, in either order. *)
Definition relevantTo (c : Conversation) (m : Message) : Prop :=
  match c with
  | Group g => groupId m = Some g
  | DirectPair a b =>
      ∃ s r, identity (senderId m) = Some s
             ∧ identity (receiverId m) = Some r
             ∧ ((s = a ∧ r = b) ∨ (s = b ∧ r = a))
  end.

Lemma isRelevantDM_true sel auth m :
  isRelevantDM sel auth m = Some true →
  JS.truthy (SelectedUser.groupId sel) = false
  ∧ ∃ s r, senderId m = Populated s ∧ receiverId m = Populated r
           ∧ ((s = SelectedUser._id sel ∧ r = AuthUser._id auth)
              ∨ (s = AuthUser._id auth ∧ r = SelectedUser._id sel)).
Proof.
  unfold isRelevantDM. destruct (JS.truthy _); [done|].
  intros H. split; [done|].
  destruct (senderId m) as [| |s|s], (receiverId m) as [| |r|r];
    simpl in H; try done;
    repeat match type of H with
           | context [String.eqb ?a ?b] =>
               let E := fresh "E" in
               destruct (String.eqb a b) eqn:E; simpl in H;
               try apply String.eqb_eq in E
           end; simplify_eq; eauto 10.
Qed.

Lemma isRelevantGroup_true sel m :
  isRelevantGroup sel m = true →
  ∃ g, SelectedUser.groupId sel = Some g ∧ JS.nonempty g = true
       ∧ groupId m = Some g.
Proof.
  unfold isRelevantGroup. rewrite andb_true_iff, strict_eq_spec.
  intros [Hg ->]. apply truthy_Some in Hg as (g & Hg & Hne). eauto.
Qed.

(** What one [created] event does: nothing, or, for a relevant message
    whose id is not in the list yet, it appends the message. *)
Lemma applyCreated_inv w c m :
  activeConversation w = Some c →
  applyCreated m w = w
  ∨ (relevantTo c m
     ∧ (_id m ∉ _id <$> messages w)
     ∧ applyCreated m w = set_messages (messages w ++ [m]) w).
Proof.
  unfold activeConversation, applyCreated, run_messageHandler.
  destruct (selectedUser w) as [sel|], (authUser w) as [auth|]; try done.
  intros [= <-].
  destruct (isRelevantDM sel auth m) as [dm|] eqn:Hdm; simpl; [|by left].
  destruct (isRelevantGroup sel m || dm) eqn:Hrel; [|by left].
  destruct (existsb _ _) eqn:Hex; [by left|]. right.
  split; [|split; [|done]].
  - apply orb_true_iff in Hrel as [Hg | ->].
    + apply isRelevantGroup_true in Hg as (g & Hsel & Hne & Hm).
      rewrite Hsel, when_truthy_true by done. done.
    + apply isRelevantDM_true in Hdm as (Hsel & s & r & Hs & Hr & Hpair).
      rewrite when_truthy_false by done. simpl.
      exists s, r. rewrite Hs, Hr. simpl. tauto.
  - intros Hin. apply list_elem_of_fmap in Hin as (x & Hid & Hx).
    assert (existsb (λ msg, String.eqb (_id msg) (_id m)) (messages w)
            = true) as Hyes; [|congruence].
    apply existsb_exists. exists x. split; [by apply list_elem_of_In|].
    apply String.eqb_eq. done.
Qed.

Lemma applyCreated_activeConversation w m :
  activeConversation (applyCreated m w) = activeConversation w.
Proof.
  unfold applyCreated, run_messageHandler.
  destruct (selectedUser w) eqn:?, (authUser w) eqn:?; simpl; try done.
  destruct (isRelevantDM _ _ _); simpl; [|done].
  repeat case_match; done.
Qed.

Local Ltac by_cases_on_ids :=
  repeat match goal with
         | |- context [String.eqb ?a ?b] => destruct (String.eqb a b); simpl
         end;
  repeat match goal with
         | H : existsb _ _ = false |- _ => rewrite H
         end.

(** The other direction, for messages as the server sends them, with
    sender and receiver populated: a relevant message whose id is new is
    appended at the end. *)
Lemma applyCreated_appends w c m :
  activeConversation w = Some c →
  match c with
  | Group g => groupId m = Some g
  | DirectPair a b =>
      ∃ s r, senderId m = Populated s ∧ receiverId m = Populated r
             ∧ ((s = a ∧ r = b) ∨ (s = b ∧ r = a))
  end →
  (_id m ∉ _id <$> messages w) →
  applyCreated m w = set_messages (messages w ++ [m]) w.
Proof.
  unfold activeConversation, applyCreated, run_messageHandler.
  destruct (selectedUser w) as [sel|], (authUser w) as [auth|]; try done.
  intros [= <-] Hrel Hnew.
  assert (existsb (λ msg, String.eqb (_id msg) (_id m)) (messages w)
          = false) as Hex.
  { destruct (existsb _ _) eqn:Hex; [|done]. exfalso. apply Hnew.
    apply existsb_exists in Hex as (x & Hx & Hid).
    apply String.eqb_eq in Hid. rewrite <- Hid.
    apply list_elem_of_fmap. exists x. by rewrite list_elem_of_In. }
  unfold isRelevantDM, isRelevantGroup.
  destruct (SelectedUser.groupId sel) as [[|ch g]|] eqn:Hsel; simpl in *.
  - destruct Hrel as (s & r & -> & -> & Hpair). simpl.
    destruct Hpair as [[-> ->] | [-> ->]]; rewrite !String.eqb_refl; simpl.
    + by by_cases_on_ids.
    + by rewrite Hex.
  - rewrite Hrel, strict_eq_refl. simpl. by rewrite Hex.
  - destruct Hrel as (s & r & -> & -> & Hpair). simpl.
    destruct Hpair as [[-> ->] | [-> ->]]; rewrite !String.eqb_refl; simpl.
    + by by_cases_on_ids.
    + by rewrite Hex.
Qed.

(** C2. Start from a list without two entries of the same id (the empty
    list, a fetched history) and apply any sequence of [created] events
    while conversation [c] is shown. The list still has no two entries
    with the same id; every entry it has was there before or is one of
    the events, and then one relevant to [c]; and an event that is not
    relevant to [c] leaves the store as it is. *)
Theorem created_events_reconcile w c evs :
  activeConversation w = Some c →
  NoDup (_id <$> messages w) →
  let w' := foldl (λ w m, applyCreated m w) w evs in
  NoDup (_id <$> messages w')
  ∧ (∀ x, x ∈ messages w' → x ∈ messages w ∨ (x ∈ evs ∧ relevantTo c x))
  ∧ (∀ w0 m, activeConversation w0 = Some c → ¬ relevantTo c m →
             applyCreated m w0 = w0).
Proof.
  intros Hc Hnodup. simpl. split; [|split].
  - revert w Hc Hnodup. induction evs as [|m evs IH]; intros w Hc Hnodup;
      simpl; [done|].
    apply IH; [by rewrite applyCreated_activeConversation|].
    destruct (applyCreated_inv w c m Hc) as [-> | (_ & Hnew & ->)]; [done|].
    simpl. rewrite fmap_app. apply NoDup_app. split; [done|].
    split; [|apply NoDup_singleton].
    intros i Hi Hi'. apply list_elem_of_singleton in Hi'. by subst.
  - revert w Hc Hnodup. induction evs as [|m evs IH]; intros w Hc Hnodup x;
      simpl; [by left|].
    intros Hx. apply IH in Hx.
    + destruct Hx as [Hx | [Hx Hrel]]; [|right; split; [by right|done]].
      destruct (applyCreated_inv w c m Hc) as [Heq | (Hrel & _ & Heq)];
        rewrite Heq in Hx; [by left|].
      simpl in Hx. apply elem_of_app in Hx as [Hx | Hx]; [by left|].
      apply list_elem_of_singleton in Hx as ->. right. split; [by left|done].
    + by rewrite applyCreated_activeConversation.
    + destruct (applyCreated_inv w c m Hc) as [-> | (_ & Hnew & ->)]; [done|].
      simpl. rewrite fmap_app. apply NoDup_app. split; [done|].
      split; [|apply NoDup_singleton].
      intros i Hi Hi'. apply list_elem_of_singleton in Hi'. by subst.
  - intros w0 m Hc0 Hirr.
    destruct (applyCreated_inv w0 c m Hc0) as [-> | (Hrel & _)]; done.
Qed.

End Reconciliation.

(** ** Subscribing and rebinding *)

Section Subscription.

Import Client.

(** The four registrations one call of [subscribeToMessages] makes. *)
Definition ownListeners (n : nat) : list Listener :=
  [ {| event := "newMessage";
       callback := {| kind := MessageHandler; serial := n |} |};
    {| event := "messageDeleted";
       callback := {| kind := MessageDeletedHandler; serial := n |} |};
    {| event := "messageEdited";
       callback := {| kind := MessageEditedHandler; serial := n |} |};
    {| event := "messagePinned";
       callback := {| kind := MessagePinnedHandler; serial := n |} |} ].

Definition foreign (l : Listener) : Prop := kind (callback l) = Foreign.

(** The registrations of the store's own functions on socket [s]. *)
Definition storeListeners (s : nat) (w : World) : list Listener :=
  List.filter (λ l, negb (bool_decide (kind (callback l) = Foreign)))
    (default [] (listeners w !! s)).

(** One listener set is bound to socket [s]: the store records [s] and
    four functions, and the socket has, after the registrations [others]
    of other components, exactly these four, one per event. *)
Definition BoundOnce (s : nat) (others : list Listener) (w : World) : Prop :=
  currentSocket w = Some s
  ∧ ∃ n,
      messageHandler w = Some {| kind := MessageHandler; serial := n |}
      ∧ messageDeletedHandler w
        = Some {| kind := MessageDeletedHandler; serial := n |}
      ∧ messageEditedHandler w
        = Some {| kind := MessageEditedHandler; serial := n |}
      ∧ messagePinnedHandler w
        = Some {| kind := MessagePinnedHandler; serial := n |}
      ∧ listeners w !! s = Some (others ++ ownListeners n).

(** Nothing is bound: no function is recorded, no socket either. *)
Definition Unbound (w : World) : Prop :=
  currentSocket w = None ∧ messageHandler w = None
  ∧ messageDeletedHandler w = None ∧ messageEditedHandler w = None
  ∧ messagePinnedHandler w = None.

(** Every event the socket delivers runs the store's listener for it
    once. *)
Definition DeliversOnce (s : nat) (w : World) : Prop :=
  ∀ m,
    receive s "newMessage" m w = applyCreated m w
    ∧ receive s "messageDeleted" m w = run_messageDeletedHandler m w
    ∧ receive s "messageEdited" m w = run_messageEditedHandler m w
    ∧ receive s "messagePinned" m w = run_messagePinnedHandler m w.

Definition storeEvents : list string :=
  ["newMessage"; "messageDeleted"; "messageEdited"; "messagePinned"].

Lemma filter_foreign others :
  Forall foreign others →
  List.filter (λ l, negb (bool_decide (kind (callback l) = Foreign))) others
  = [].
Proof.
  induction 1 as [|x l Hx _ IH]; simpl; [done|].
  by rewrite bool_decide_eq_true_2.
Qed.

Lemma storeListeners_bound s others w :
  Forall foreign others → BoundOnce s others w →
  ∃ n, storeListeners s w = ownListeners n.
Proof.
  intros Hothers (_ & n & _ & _ & _ & _ & Hls). exists n.
  unfold storeListeners. rewrite Hls. simpl.
  by rewrite List.filter_app, filter_foreign.
Qed.

Lemma call_foreign m w cs :
  Forall (λ c, kind c = Foreign) cs → foldl (λ w fn, call fn m w) w cs = w.
Proof.
  induction 1 as [|c cs Hc _ IH]; simpl; [done|].
  unfold call at 2. by rewrite Hc.
Qed.

Lemma callbacks_bound s others w ev n :
  Forall foreign others →
  listeners w !! s = Some (others ++ ownListeners n) →
  ∃ cs, Forall (λ c, kind c = Foreign) cs
        ∧ callbacks s ev w
          = cs ++ (callback <$> List.filter
                                  (λ l, String.eqb (event l) ev)
                                  (ownListeners n)).
Proof.
  intros Hothers Hls. unfold callbacks. rewrite Hls. simpl.
  rewrite List.filter_app, fmap_app. eexists. split; [|reflexivity].
  apply Forall_fmap. clear Hls.
  induction Hothers as [|x l Hx _ IH]; simpl; [done|].
  destruct (String.eqb (event x) ev); [by constructor | done].
Qed.

Lemma receive_bound s others w ev n m :
  Forall foreign others →
  listeners w !! s = Some (others ++ ownListeners n) →
  receive s ev m w
  = foldl (λ w fn, call fn m w) w
      (callback <$> List.filter (λ l, String.eqb (event l) ev)
                      (ownListeners n)).
Proof.
  intros Hothers Hls. unfold receive.
  destruct (callbacks_bound s others w ev n Hothers Hls) as (cs & Hcs & ->).
  by rewrite foldl_app, (call_foreign m w cs).
Qed.

Lemma BoundOnce_delivers s others w :
  Forall foreign others → BoundOnce s others w → DeliversOnce s w.
Proof.
  intros Hothers (_ & n & _ & _ & _ & _ & Hls) m.
  by rewrite !(receive_bound s others w _ n m Hothers Hls).
Qed.

(** Selecting another entry of the sidebar touches neither the bindings
    nor the sockets. *)
Lemma BoundOnce_setSelectedUser s others u w :
  BoundOnce s others w → BoundOnce s others (setSelectedUser u w).
Proof. done. Qed.

(** The guard of [subscribeToMessages]: with a listener set bound to the
    current socket, the call changes nothing. *)
Lemma subscribeToMessages_bound s others w :
  socket w = Some s → BoundOnce s others w → subscribeToMessages w = w.
Proof.
  intros Hs (Hcur & n & Hh & _). unfold subscribeToMessages.
  rewrite Hs. destruct (selectedUser w); [|done].
  rewrite Hcur, (bool_decide_eq_true_2 (s = s)) by done.
  rewrite Hcur, Hh. simpl.
  by rewrite !bool_decide_eq_true_2 by eauto.
Qed.

(** The first call binds one set, after whatever the socket had. *)
Lemma subscribeToMessages_binds s a w :
  socket w = Some s → selectedUser w = Some a → Unbound w →
  BoundOnce s (default [] (listeners w !! s)) (subscribeToMessages w).
Proof.
  intros Hs Ha (Hcur & Hh & Hd & He & Hp). unfold subscribeToMessages.
  rewrite Hs, Ha, Hcur. simpl. rewrite Hcur, Hh. simpl.
  split; [done|]. exists (allocated w). repeat split.
  unfold on. simpl. rewrite !lookup_insert_eq. simpl.
  by rewrite <- !app_assoc.
Qed.

(** C8. A store has one listener set bound to socket [s] while showing
    conversation [a]. Selecting [b] and calling [subscribeToMessages],
    then selecting [a] again and calling it again, on the same socket,
    leaves after each call that same set bound: the store's
    registrations on [s] are the four they were, one per event, and
    every event the socket delivers runs its listener once. *)
Theorem rebind_keeps_one_listener_set w s others a b :
  socket w = Some s →
  selectedUser w = Some a →
  Forall foreign others →
  BoundOnce s others w →
  let w1 := subscribeToMessages (setSelectedUser (Some b) w) in
  let w2 := subscribeToMessages (setSelectedUser (Some a) w1) in
  (∀ w', w' = w1 ∨ w' = w2 →
     BoundOnce s others w'
     ∧ listeners w' = listeners w
     ∧ storeListeners s w' = storeListeners s w
     ∧ length (storeListeners s w') = 4%nat
     ∧ (∀ ev, ev ∈ storeEvents →
          length (List.filter (λ l, String.eqb (event l) ev)
                    (storeListeners s w')) = 1%nat)
     ∧ DeliversOnce s w')
  ∧ selectedUser w1 = Some b
  ∧ w2 = w.
Proof.
  intros Hs Ha Hothers Hbound w1 w2.
  assert (w1 = setSelectedUser (Some b) w) as Hw1.
  { subst w1. eapply subscribeToMessages_bound; [done|].
    by apply BoundOnce_setSelectedUser. }
  assert (w2 = w) as Hw2.
  { subst w2. rewrite Hw1.
    erewrite subscribeToMessages_bound;
      [|done|by do 2 apply BoundOnce_setSelectedUser].
    destruct w; simpl in *. by subst. }
  assert (∀ w', BoundOnce s others w' → listeners w' = listeners w →
                BoundOnce s others w'
                ∧ listeners w' = listeners w
                ∧ storeListeners s w' = storeListeners s w
                ∧ length (storeListeners s w') = 4%nat
                ∧ (∀ ev, ev ∈ storeEvents →
                     length (List.filter (λ l, String.eqb (event l) ev)
                               (storeListeners s w')) = 1%nat)
                ∧ DeliversOnce s w') as Hall.
  { intros w' Hb Hl. split; [done|]. split; [done|].
    split; [by unfold storeListeners; rewrite Hl|].
    destruct (storeListeners_bound s others w' Hothers Hb) as [n ->].
    split; [done|]. split; [|by eapply BoundOnce_delivers].
    intros ev Hev. unfold storeEvents in Hev.
    repeat (apply elem_of_cons in Hev as [-> | Hev]; [done|]).
    by apply elem_of_nil in Hev. }
  split; [|split; [by rewrite Hw1 | done]].
  intros w' [-> | ->].
  - rewrite Hw1. apply Hall; [by apply BoundOnce_setSelectedUser | done].
  - rewrite Hw2. by apply Hall.
Qed.

(** The switch with the explicit teardown in between gives the same
    result: [unsubscribeFromMessages] removes the four registrations and
    forgets the socket, and the next [subscribeToMessages] binds one new
    set. *)
Lemma remove_first_foreign ev fn others l :
  Forall foreign others → kind fn ≠ Foreign →
  remove_first ev fn (others ++ l) = others ++ remove_first ev fn l.
Proof.
  intros Hothers Hfn. induction Hothers as [|x k Hx _ IH]; simpl; [done|].
  rewrite IH. rewrite (bool_decide_eq_false_2 (callback x = fn)).
  - by rewrite andb_false_r.
  - intros <-. done.
Qed.

Lemma remove_first_head ev fn l :
  remove_first ev fn ({| event := ev; callback := fn |} :: l) = l.
Proof.
  simpl. by rewrite String.eqb_refl, bool_decide_eq_true_2.
Qed.

(** [off] touches the listener table only. *)
Lemma off_binding s ev fn w :
  messageHandler (off s ev fn w) = messageHandler w
  ∧ messageDeletedHandler (off s ev fn w) = messageDeletedHandler w
  ∧ messageEditedHandler (off s ev fn w) = messageEditedHandler w
  ∧ messagePinnedHandler (off s ev fn w) = messagePinnedHandler w
  ∧ socket (off s ev fn w) = socket w
  ∧ selectedUser (off s ev fn w) = selectedUser w.
Proof. by destruct fn. Qed.

Lemma unsubscribeFromMessages_unbinds s others w :
  Forall foreign others → BoundOnce s others w →
  Unbound (unsubscribeFromMessages w)
  ∧ listeners (unsubscribeFromMessages w) !! s = Some others
  ∧ storeListeners s (unsubscribeFromMessages w) = [].
Proof.
  intros Hothers (Hcur & n & Hh & Hd & He & Hp & Hls).
  unfold unsubscribeFromMessages. rewrite Hcur. cbv zeta.
  repeat match goal with
         | |- context [messagePinnedHandler (off ?s ?ev ?fn ?w)] =>
             rewrite (proj1 (proj2 (proj2 (proj2 (off_binding s ev fn w)))))
         | |- context [messageEditedHandler (off ?s ?ev ?fn ?w)] =>
             rewrite (proj1 (proj2 (proj2 (off_binding s ev fn w))))
         | |- context [messageDeletedHandler (off ?s ?ev ?fn ?w)] =>
             rewrite (proj1 (proj2 (off_binding s ev fn w)))
         end.
  assert (listeners
            (off s "messagePinned" (messagePinnedHandler w)
               (off s "messageEdited" (messageEditedHandler w)
                  (off s "messageDeleted" (messageDeletedHandler w)
                     (off s "newMessage" (messageHandler w) w)))) !! s
          = Some others) as Hoff.
  { rewrite Hh, Hd, He, Hp. unfold off. simpl.
    rewrite !lookup_alter_eq, Hls. simpl. unfold ownListeners.
    rewrite !remove_first_foreign by done.
    rewrite !remove_first_head. by rewrite app_nil_r. }
  split; [done|]. split; [exact Hoff|].
  unfold storeListeners. simpl in *. rewrite Hoff. simpl.
  by apply filter_foreign.
Qed.

Lemma resubscribe_after_unsubscribe s others a w :
  socket w = Some s → selectedUser w = Some a →
  Forall foreign others → BoundOnce s others w →
  BoundOnce s others (subscribeToMessages (unsubscribeFromMessages w)).
Proof.
  intros Hs Ha Hothers Hb.
  destruct (unsubscribeFromMessages_unbinds s others w Hothers Hb)
    as (Hun & Hls & _).
  assert (socket (unsubscribeFromMessages w) = Some s
          ∧ selectedUser (unsubscribeFromMessages w) = Some a) as [Hs' Ha'].
  { unfold unsubscribeFromMessages.
    destruct (currentSocket w); [|done]. simpl.
    repeat match goal with
           | |- context [socket (off ?s ?ev ?fn ?w)] =>
               rewrite (proj1 (proj2 (proj2 (proj2 (proj2
                          (off_binding s ev fn w))))))
           | |- context [selectedUser (off ?s ?ev ?fn ?w)] =>
               rewrite (proj2 (proj2 (proj2 (proj2 (proj2
                          (off_binding s ev fn w))))))
           end. done. }
  pose proof (subscribeToMessages_binds s a _ Hs' Ha' Hun) as Hb'.
  by rewrite Hls in Hb'.
Qed.

End Subscription.

(** *** The store on a concrete run *)

Definition friend_A : Client.SelectedUser.t :=
  {| Client.SelectedUser._id := "A"; Client.SelectedUser.groupId := None;
     Client.SelectedUser.isGroup := false |}.

Definition friend_B : Client.SelectedUser.t :=
  {| Client.SelectedUser._id := "B"; Client.SelectedUser.groupId := None;
     Client.SelectedUser.isGroup := false |}.

(** The sidebar's own [newMessage] listener, on the same socket. *)
Definition sidebar_listener : Client.Listener :=
  {| Client.event := "newMessage";
     Client.callback := {| Client.kind := Client.Foreign;
                           Client.serial := 0 |} |}.

(** User "Me" is logged in on socket 0, has picked A, and the store has
    not subscribed yet. *)
Definition fresh_store : Client.World :=
  {| Client.messages := []; Client.selectedUser := Some friend_A;
     Client.messageHandler := None; Client.messageDeletedHandler := None;
     Client.messageEditedHandler := None;
     Client.messagePinnedHandler := None; Client.currentSocket := None;
     Client.socket := Some 0%nat;
     Client.authUser := Some {| Client.AuthUser._id := "Me" |};
     Client.listeners := {[ 0%nat := [sidebar_listener] ]};
     Client.allocated := 0 |}.

Definition hi_from_A : Client.Message :=
  {| Client._id := "m1"; Client.senderId := Client.Populated "A";
     Client.receiverId := Client.Populated "Me"; Client.groupId := None;
     Client.text := Some "hi"; Client.image := None;
     Client.edited := false; Client.isDeleted := false;
     Client.pinned := false; Client.createdAt := Some 1000 |}.

Definition hi_from_A_edited : Client.Message :=
  {| Client._id := "m1"; Client.senderId := Client.Populated "A";
     Client.receiverId := Client.Populated "Me"; Client.groupId := None;
     Client.text := Some "hello"; Client.image := None;
     Client.edited := true; Client.isDeleted := false;
     Client.pinned := false; Client.createdAt := Some 1000 |}.

Definition hi_from_B : Client.Message :=
  {| Client._id := "m2"; Client.senderId := Client.Populated "B";
     Client.receiverId := Client.Populated "Me"; Client.groupId := None;
     Client.text := Some "hi"; Client.image := None;
     Client.edited := false; Client.isDeleted := false;
     Client.pinned := false; Client.createdAt := Some 2000 |}.

Lemma fresh_store_subscribed :
  BoundOnce 0 [sidebar_listener] (Client.subscribeToMessages fresh_store).
Proof.
  split; [reflexivity|]. exists 0%nat. repeat split.
Qed.

Lemma rebind_keeps_one_listener_set_witness :
  let w := Client.subscribeToMessages fresh_store in
  let w1 := Client.subscribeToMessages
              (Client.setSelectedUser (Some friend_B) w) in
  let w2 := Client.subscribeToMessages
              (Client.setSelectedUser (Some friend_A) w1) in
  length (storeListeners 0 w1) = 4%nat
  ∧ length (storeListeners 0 w2) = 4%nat
  ∧ w2 = w.
Proof.
  intros w w1 w2.
  destruct (rebind_keeps_one_listener_set w 0%nat [sidebar_listener]
              friend_A friend_B eq_refl eq_refl
              ltac:(repeat constructor) fresh_store_subscribed)
    as (Heach & _ & Hback).
  destruct (Heach w1 (or_introl eq_refl)) as (_ & _ & _ & H1 & _).
  destruct (Heach w2 (or_intror eq_refl)) as (_ & _ & _ & H2 & _).
  split; [exact H1|]. split; [exact H2 | exact Hback].
Defined.

Lemma created_events_reconcile_witness :
  NoDup (Client._id
           <$> Client.messages
                 (foldl (λ w m, Client.applyCreated m w) fresh_store
                    [hi_from_A; hi_from_B; hi_from_A]))
  ∧ Client.messages
      (foldl (λ w m, Client.applyCreated m w) fresh_store
         [hi_from_A; hi_from_B; hi_from_A]) = [hi_from_A].
Proof.
  destruct (created_events_reconcile fresh_store (DirectPair "Me" "A")
              [hi_from_A; hi_from_B; hi_from_A] eq_refl
              ltac:(constructor))
    as (Hnodup & _ & _).
  split; [exact Hnodup | reflexivity].
Defined.

Lemma update_events_upsert_by_id_witness :
  let w := Client.applyCreated hi_from_A fresh_store in
  Client.messages (Client.run_messageEditedHandler hi_from_A_edited w)
  = [hi_from_A_edited]
  ∧ Client.run_messageEditedHandler hi_from_B w = w.
Proof.
  intros w. destruct update_events_upsert_by_id as (Hedit & _ & _).
  destruct (Hedit hi_from_B w) as (_ & _ & _ & Hmiss & _).
  split; [reflexivity|].
  apply Hmiss. repeat constructor. discriminate.
Defined.

(** ** The recency index of the sidebar *)

Section Recency.

Import Client Sidebar.

(** The key a message concerns, read off the two branches of the
    listener: the sender when it is set, is not the local user and is not
    the string "undefined"; otherwise, for the local user's own message,
    the receiver under the same conditions. *)
Definition updatedKey (currentUserId : option string) (newMessage : Message)
  : option string :=
  match createdAt newMessage, idOf (senderId newMessage) with
  | Some _, Some senderId =>
      if JS.truthy senderId
         && negb (JS.strict_eq senderId currentUserId)
         && negb (JS.strict_eq senderId (Some "undefined"))
      then senderId
      else
        let receiverId := idOrNull (receiverId newMessage) in
        if JS.strict_eq senderId currentUserId
           && JS.truthy receiverId
           && negb (JS.strict_eq receiverId (Some "undefined"))
        then receiverId
        else None
  | _, _ => None
  end.

(** The listener writes the creation time of the message under
    [updatedKey], when there is one, and does nothing otherwise. *)
Lemma receive_updatedKey currentUserId m st :
  Sidebar.receive currentUserId m st
  = match updatedKey currentUserId m, createdAt m with
    | Some key, Some timestamp => touch key timestamp st
    | _, _ => st
    end.
Proof.
  unfold Sidebar.receive, handleNewMessage, updatedKey.
  destruct (createdAt m) as [timestamp|]; [|done].
  destruct (idOf (senderId m)) as [sender|]; simpl; [|done].
  destruct (JS.truthy sender && _ && _) eqn:Hfirst.
  - destruct sender; [done|]. by rewrite andb_false_l in Hfirst.
  - destruct (JS.strict_eq sender currentUserId && _ && _) eqn:Hsecond;
      [|done].
    destruct (idOrNull (receiverId m)); [done|].
    by rewrite andb_false_r in Hsecond.
Qed.

(** C3 as the design document words it: a [created] event whose creation
    time is not greater than the value stored for a key leaves that value
    as it is. *)
Definition recency_never_decreases : Prop :=
  ∀ currentUserId m st key stored timestamp,
    userLastMessageTime st !! key = Some stored →
    createdAt m = Some timestamp →
    timestamp ≤ stored →
    userLastMessageTime (Sidebar.receive currentUserId m st) !! key
    = Some stored.

(** A's message of time 2000 is recorded; her message of time 1000
    arrives after it. *)
Definition A_seen_at_2000 : State :=
  {| userLastMessageTime := {[ "A" := 2000 ]}; renders := 1 |}.

Definition older_from_A : Message :=
  {| _id := "m0"; senderId := Populated "A"; receiverId := Populated "Me";
     groupId := None; text := Some "first"; image := None; edited := false;
     isDeleted := false; pinned := false; createdAt := Some 1000 |}.

Lemma older_event_lowers_recency :
  userLastMessageTime (Sidebar.receive (Some "Me") older_from_A A_seen_at_2000)
    !! "A" = Some 1000.
Proof. reflexivity. Qed.

(** The late, older event lowers the stored value from 2000 to 1000. *)
Lemma recency_regresses_on_late_event : ¬ recency_never_decreases.
Proof.
  intros H.
  specialize (H (Some "Me") older_from_A A_seen_at_2000 "A" 2000 1000
                eq_refl eq_refl ltac:(lia)).
  rewrite older_event_lowers_recency in H. discriminate H.
Qed.

(** C3, as the code has it. A [created] event that concerns a key (the
    sender when that is not the local user, otherwise the receiver of the
    local user's own message) stores its creation time under that key,
    whatever was stored; the timestamps of all other keys stay, and an
    event that concerns no key changes nothing. Hence the value stored
    for a key does not decrease when the event is not older than it. *)
Theorem created_event_overwrites_recency currentUserId m st key :
  let st' := Sidebar.receive currentUserId m st in
  (updatedKey currentUserId m = Some key →
   ∃ timestamp, createdAt m = Some timestamp
                ∧ userLastMessageTime st' !! key = Some timestamp)
  ∧ (updatedKey currentUserId m ≠ Some key →
     userLastMessageTime st' !! key = userLastMessageTime st !! key)
  ∧ (updatedKey currentUserId m = None → st' = st)
  ∧ (∀ stored timestamp,
       userLastMessageTime st !! key = Some stored →
       createdAt m = Some timestamp →
       stored ≤ timestamp →
       ∃ stored', userLastMessageTime st' !! key = Some stored'
                  ∧ stored ≤ stored').
Proof.
  simpl. rewrite receive_updatedKey.
  split; [|split; [|split]].
  - intros Hkey. rewrite Hkey.
    unfold updatedKey in Hkey.
    destruct (createdAt m) as [timestamp|]; [|done].
    exists timestamp. split; [done|]. simpl. apply lookup_insert_eq.
  - intros Hkey.
    destruct (updatedKey currentUserId m) as [k|]; [|done].
    destruct (createdAt m); [|done]. simpl.
    apply lookup_insert_ne. congruence.
  - by intros ->.
  - intros stored timestamp Hstored Htime Hle. rewrite Htime.
    destruct (updatedKey currentUserId m) as [k|]; [|eauto with lia].
    simpl. destruct (decide (k = key)) as [->|Hne].
    + rewrite lookup_insert_eq. eauto.
    + rewrite lookup_insert_ne by done. eauto with lia.
Qed.

End Recency.

Lemma created_event_overwrites_recency_witness :
  Sidebar.userLastMessageTime
    (Sidebar.receive (Some "Me") hi_from_B
       (Sidebar.receive (Some "Me") hi_from_A
          {| Sidebar.userLastMessageTime := ∅; Sidebar.renders := 0 |})) !! "A"
  = Some 1000.
Proof.
  destruct (created_event_overwrites_recency (Some "Me") hi_from_B
              (Sidebar.receive (Some "Me") hi_from_A
                 {| Sidebar.userLastMessageTime := ∅; Sidebar.renders := 0 |}) "A")
    as (_ & Hother & _).
  rewrite Hother; [reflexivity | discriminate].
Defined.

(** * Further properties of the controller *)

Lemma forbidden_direct Group_findOne message userId :
  JS.truthy (Server.groupId message) = false →
  JS.truthy (Server.receiverId message) = true →
  (Server.forbidden Group_findOne message userId = false ↔
   Server.senderId message = userId
   ∨ Server.receiverId message = Some userId).
Proof.
  unfold Server.forbidden, Server.isSender, Server.isReceiver,
    Server.isGroupMember, Server.isPrivateMessage.
  intros Hg Hr. rewrite Hg, Hr, when_truthy_false by done. simpl.
  destruct (String.eqb (Server.senderId message) userId) eqn:Hs; simpl.
  - apply String.eqb_eq in Hs. tauto.
  - apply String.eqb_neq in Hs.
    rewrite andb_true_r, negb_false_iff, strict_eq_spec. tauto.
Qed.

Lemma forbidden_group Group_findOne message userId g :
  Server.groupId message = Some g → JS.nonempty g = true →
  (Server.forbidden Group_findOne message userId = false ↔
   Server.senderId message = userId ∨ Group_findOne g userId = true).
Proof.
  unfold Server.forbidden, Server.isSender, Server.isReceiver,
    Server.isGroupMember, Server.isPrivateMessage.
  intros Hg Hne. rewrite Hg, when_truthy_true by done. simpl.
  rewrite Hne. simpl. rewrite andb_false_r. simpl.
  destruct (String.eqb (Server.senderId message) userId) eqn:Hs; simpl.
  - apply String.eqb_eq in Hs. tauto.
  - apply String.eqb_neq in Hs. rewrite negb_false_iff. tauto.
Qed.

Section ControllerMore.

Import Server.

Variable encryptCaesar decryptCaesar : string → string.
Variable analyze : string → string → option AnalysisResult.
Variable cloudinary_upload : string → option (option string).
Variable getReceiverSocketId : option string → option string.
Variable Group_findOne : string → string → bool.
Variable Reaction_find : string → list Reaction.

Abbreviation sendMessage :=
  (Server.sendMessage encryptCaesar decryptCaesar analyze cloudinary_upload
     getReceiverSocketId).
Abbreviation editMessage :=
  (Server.editMessage encryptCaesar decryptCaesar getReceiverSocketId
     Group_findOne).
Abbreviation deleteMessage :=
  (Server.deleteMessage getReceiverSocketId Group_findOne).
Abbreviation pinMessage :=
  (Server.pinMessage decryptCaesar getReceiverSocketId Group_findOne).
Abbreviation getMessages := (Server.getMessages decryptCaesar Reaction_find).
Abbreviation forbidden := (Server.forbidden Group_findOne).
Abbreviation emitUpdate := (Server.emitUpdate getReceiverSocketId).
Abbreviation reveal := (Server.reveal decryptCaesar).

(** The three handlers that change a stored message. *)
Inductive Update :=
| Edit (newText : option string)
| Delete
| Pin.

Definition runUpdate (u : Update) (db : Collection) (messageId userId : string)
  : Outcome :=
  match u with
  | Edit newText => editMessage db messageId newText userId
  | Delete => deleteMessage db messageId userId
  | Pin => pinMessage db messageId userId
  end.

(** What the handler writes into the document it found. *)
Definition applied (u : Update) (message : Message) : Message :=
  match u with
  | Edit newText =>
      set_edited true
        (set_text (Server.encryptedText encryptCaesar newText) message)
  | Delete => set_text None (set_isDeleted true message)
  | Pin => set_pinned (negb (pinned message)) message
  end.

Lemma runUpdate_not_found u db messageId userId :
  findById db messageId = None →
  runUpdate u db messageId userId
  = {| stored := db; emitted := []; response := notFound |}.
Proof.
  intros H. destruct u; simpl;
    unfold Server.editMessage, Server.deleteMessage, Server.pinMessage;
    by rewrite H.
Qed.

Lemma runUpdate_forbidden u db messageId userId message :
  findById db messageId = Some message →
  forbidden message userId = true →
  stored (runUpdate u db messageId userId) = db
  ∧ emitted (runUpdate u db messageId userId) = []
  ∧ status (response (runUpdate u db messageId userId)) = 403.
Proof.
  intros H Hf. destruct u; simpl;
    unfold Server.editMessage, Server.deleteMessage, Server.pinMessage;
    by rewrite H, Hf.
Qed.

Lemma runUpdate_allowed u db messageId userId message :
  findById db messageId = Some message →
  forbidden message userId = false →
  stored (runUpdate u db messageId userId) = save db (applied u message)
  ∧ (status (response (runUpdate u db messageId userId)) = 200
     ∨ status (response (runUpdate u db messageId userId)) = 500).
Proof.
  intros H Hf. destruct u; simpl;
    unfold Server.editMessage, Server.deleteMessage, Server.pinMessage;
    rewrite H, Hf, finish_stored; (split; [done|]);
    unfold finish; destruct (Server.emitUpdate _ _ _ _ _); simpl; auto.
Qed.

(** X1. For [editMessage], [deleteMessage] and [pinMessage] alike: the
    answer is 404 exactly when no message has the id, and 403 exactly
    when the message exists and the requester fails the permission
    check; in both cases the collection is untouched and no event is
    emitted. *)
Theorem rejected_update_changes_nothing u db messageId userId :
  let out := runUpdate u db messageId userId in
  (status (response out) = 404 ↔ findById db messageId = None)
  ∧ (status (response out) = 403 ↔
     ∃ message, findById db messageId = Some message
                ∧ forbidden message userId = true)
  ∧ (status (response out) = 404 ∨ status (response out) = 403 →
     stored out = db ∧ emitted out = []).
Proof.
  simpl. destruct (findById db messageId) as [message|] eqn:Hfind.
  - destruct (forbidden message userId) eqn:Hf.
    + destruct (runUpdate_forbidden u _ _ _ _ Hfind Hf) as (Hs & He & Hst).
      rewrite Hst, Hs, He. split; [split; done|].
      split; [|done]. split; [eauto|done].
    + destruct (runUpdate_allowed u _ _ _ _ Hfind Hf) as (_ & [Hst | Hst]);
        rewrite Hst.
      all: split; [split; done|].
      all: split; [|intros [?|?]; done].
      all: split; [done|].
      all: intros (m & [= <-] & Hyes); congruence.
  - rewrite (runUpdate_not_found u _ _ _ Hfind). simpl.
    split; [done|]. split; [|done].
    split; [done|]. by intros (m & ? & _).
Qed.

(** X2. Who passes the permission check. On a direct message (a receiver
    and no group): its sender and its receiver, nobody else, and the
    group collection is not consulted. On a group message: its sender,
    and whoever the group collection lists as a member of that group at
    the time of the request. *)
Theorem permission_rule message userId :
  (JS.truthy (groupId message) = false →
   JS.truthy (receiverId message) = true →
   (forbidden message userId = false ↔
    senderId message = userId ∨ receiverId message = Some userId))
  ∧ (∀ g, groupId message = Some g → JS.nonempty g = true →
     (forbidden message userId = false ↔
      senderId message = userId ∨ Group_findOne g userId = true)).
Proof.
  split; [apply forbidden_direct|].
  intros g. apply forbidden_group.
Qed.

Lemma applied_id u message : _id (applied u message) = _id message.
Proof. by destruct u. Qed.

Lemma applied_forbidden u message userId :
  forbidden (applied u message) userId = forbidden message userId.
Proof. by destruct u. Qed.

Lemma save_ids db m : _id <$> save db m = _id <$> db.
Proof.
  unfold save. change (List.map ?f ?l) with (f <$> l).
  rewrite <- list_fmap_compose.
  apply Forall_fmap_ext_1, Forall_forall. intros x _. simpl.
  destruct (String.eqb (_id x) (_id m)) eqn:Hx; [|done].
  by apply String.eqb_eq in Hx.
Qed.

(** With distinct ids, the document found under an id is the only one
    that has it. *)
Lemma findById_unique db id m x :
  NoDup (_id <$> db) → findById db id = Some m →
  x ∈ db → _id x = id → x = m.
Proof.
  unfold findById. induction db as [|y db IH]; simpl; [done|].
  intros Hnd Hfind Hx Hid. apply NoDup_cons in Hnd as [Hy Hnd].
  destruct (String.eqb (_id y) id) eqn:Hyid.
  - apply String.eqb_eq in Hyid. injection Hfind as <-.
    apply elem_of_cons in Hx as [-> | Hx]; [done|].
    exfalso. apply Hy. rewrite Hyid, <- Hid. by apply list_elem_of_fmap_2.
  - apply elem_of_cons in Hx as [-> | Hx].
    + apply String.eqb_neq in Hyid. done.
    + by apply IH.
Qed.

Lemma save_same db m :
  (∀ x, x ∈ db → _id x = _id m → x = m) → save db m = db.
Proof.
  unfold save. induction db as [|y db IH]; simpl; intros H; [done|].
  rewrite IH by (intros x Hx; apply H; by right). f_equal.
  destruct (String.eqb (_id y) (_id m)) eqn:Hy; [|done].
  apply String.eqb_eq in Hy. symmetry. apply H; [by left | done].
Qed.

Lemma save_save db m m' :
  _id m' = _id m → save (save db m') m = save db m.
Proof.
  intros Hid. unfold save. rewrite List.map_map.
  apply List.map_ext. intros x. rewrite Hid.
  destruct (String.eqb (_id x) (_id m)) eqn:Hx; [|by rewrite Hx].
  by rewrite Hid, String.eqb_refl.
Qed.

Lemma finish_emitted db' es ok e :
  e ∈ emitted (finish db' es ok) → ∃ l, es = Some l ∧ e ∈ l.
Proof.
  destruct es as [l|]; simpl; [eauto|]. by intros ?%elem_of_nil.
Qed.

(** X3. Pinning is a toggle. On an existing message and for a permitted
    requester, one [pinMessage] stores the message with [pinned] negated
    and a second one stores it as it was; every event of the first call
    carries the negated flag, every event of the second the original one.
    When ids are distinct the whole collection is back to what it was. *)
Theorem pinMessage_twice_restores db messageId userId message :
  findById db messageId = Some message →
  forbidden message userId = false →
  let once := pinMessage db messageId userId in
  let twice := pinMessage (stored once) messageId userId in
  findById (stored once) messageId
  = Some (set_pinned (negb (pinned message)) message)
  ∧ findById (stored twice) messageId = Some message
  ∧ Forall (λ e, event e = "messagePinned"
                 ∧ pinned (fields (self (payload e)))
                   = negb (pinned message)) (emitted once)
  ∧ Forall (λ e, event e = "messagePinned"
                 ∧ pinned (fields (self (payload e))) = pinned message)
      (emitted twice)
  ∧ (NoDup (_id <$> db) → stored twice = db).
Proof.
  intros Hfind Hperm once twice.
  pose proof (findById_id _ _ _ Hfind) as Hid.
  set (m1 := set_pinned (negb (pinned message)) message).
  assert (findById (stored once) messageId = Some m1) as Hfind1.
  { subst once. unfold Server.pinMessage.
    rewrite Hfind, Hperm, finish_stored. by eapply findById_save. }
  assert (stored once = save db m1) as Hstored1.
  { subst once. unfold Server.pinMessage.
    by rewrite Hfind, Hperm, finish_stored. }
  assert (set_pinned (negb (pinned m1)) m1 = message) as Hback.
  { subst m1. destruct message; simpl. by rewrite negb_involutive. }
  assert (stored twice = save db message) as Hstored2.
  { subst twice. unfold Server.pinMessage.
    rewrite Hfind1. change (forbidden m1 userId) with (forbidden message userId).
    rewrite Hperm, finish_stored, Hback, Hstored1. by apply save_save. }
  assert (∀ db0 m0,
            findById db0 messageId = Some m0 →
            forbidden m0 userId = false →
            Forall (λ e, event e = "messagePinned"
                         ∧ pinned (fields (self (payload e)))
                           = negb (pinned m0))
              (emitted (pinMessage db0 messageId userId))) as Hev.
  { intros db0 m0 H0 Hp0. unfold Server.pinMessage. rewrite H0, Hp0.
    apply Forall_forall. intros e He.
    apply finish_emitted in He as (l & Hl & He).
    apply emitUpdate_event in Hl. rewrite Forall_forall in Hl.
    destruct (Hl e He) as [-> ->]. split; [done|]. simpl.
    unfold Server.reveal. by destruct (_ && _). }
  split; [done|]. split; [|split; [|split]].
  - rewrite Hstored2. by eapply findById_save.
  - by apply (Hev db message).
  - subst twice. eapply Forall_impl; [by apply (Hev _ m1)|].
    intros e [? ->]. split; [done|]. subst m1. simpl.
    by rewrite negb_involutive.
  - intros Hnd. rewrite Hstored2. apply save_same.
    intros x Hx Hxid. eapply findById_unique; [done..|congruence].
Qed.

Lemma update_touches_one_document_aux u db messageId userId :
  _id <$> stored (runUpdate u db messageId userId) = _id <$> db
  ∧ ∀ other, other ≠ messageId →
             findById (stored (runUpdate u db messageId userId)) other
             = findById db other.
Proof.
  destruct (findById db messageId) as [message|] eqn:Hfind.
  - destruct (forbidden message userId) eqn:Hf.
    + destruct (runUpdate_forbidden u _ _ _ _ Hfind Hf) as (-> & _). done.
    + destruct (runUpdate_allowed u _ _ _ _ Hfind Hf) as (-> & _).
      split; [apply save_ids|].
      intros other Hother. apply findById_save_other.
      rewrite applied_id. by rewrite (findById_id _ _ _ Hfind).
  - by rewrite (runUpdate_not_found u _ _ _ Hfind).
Qed.

(** X4. None of the three handlers adds or removes a document or moves
    one: the sequence of ids of the collection is the same after the
    request, whatever its answer, and every document with another id
    than the one addressed is found exactly as it was. *)
Theorem update_touches_one_document u db messageId userId :
  let out := runUpdate u db messageId userId in
  _id <$> stored out = _id <$> db
  ∧ ∀ other, other ≠ messageId →
             findById (stored out) other = findById db other.
Proof. apply update_touches_one_document_aux. Qed.

(** The fields no handler writes after the message was created: who
    sent it and to whom, when, what it replies to, its image, and the
    verdicts of the classification. *)
Definition frozen (m : Message) :=
  (_id m, senderId m, receiverId m, groupId m, createdAt m, replyTo m,
   image m,
   (sentiment m, sentimentAnalysis m, sentimentOverridden m, toxicity m),
   (isEncrypted m, encryptionMethod m, encryptionKey m)).

(** X5. Editing, deleting and pinning never change the conversation a
    message belongs to, its creation time, its image or its
    classification: under every id, the document after the request has
    the same [frozen] fields as before. In particular an edit does not
    classify the new text. *)
Theorem update_keeps_frozen_fields u db messageId userId id :
  frozen <$> findById (stored (runUpdate u db messageId userId)) id
  = frozen <$> findById db id.
Proof.
  destruct (decide (id = messageId)) as [->|Hne];
    [|by rewrite (proj2 (update_touches_one_document_aux u db messageId
                           userId))].
  destruct (findById db messageId) as [message|] eqn:Hfind.
  - destruct (forbidden message userId) eqn:Hf.
    + destruct (runUpdate_forbidden u _ _ _ _ Hfind Hf) as (-> & _).
      by rewrite Hfind.
    + destruct (runUpdate_allowed u _ _ _ _ Hfind Hf) as (-> & _).
      erewrite findById_save;
        [|done|by rewrite applied_id; eapply findById_id].
      simpl. by destruct u.
  - rewrite (runUpdate_not_found u _ _ _ Hfind). simpl. by rewrite Hfind.
Qed.

(** *** sendMessage: what is stored and who is told *)

(** X6. A send that passes the check stores one new document, with the
    id and time the store gives it, the requester as sender and all
    flags unset, and answers 201 with the object every emitted
    [newMessage] event carries. With a group id in the request the
    document has that group and no receiver, and the one event goes to
    the group's room; without, it has the receiver of the route and no
    group, and the event goes to the socket found for the receiver, then
    to the socket found for the sender. *)
Theorem sendMessage_audience db b receiverId senderId newId now :
  JS.truthy_trim (body_text b) || JS.truthy (body_image b) = true →
  let out := sendMessage db b receiverId senderId newId now in
  ∃ m obj,
    stored out = db ++ [m]
    ∧ response out = {| status := 201; body := JsonMessage obj |}
    ∧ _id m = newId ∧ Server.senderId m = senderId ∧ createdAt m = now
    ∧ edited m = false ∧ isDeleted m = false ∧ pinned m = false
    ∧ Forall (λ e, event e = "newMessage" ∧ payload e = obj) (emitted out)
    ∧ (∀ g, body_groupId b = Some g → JS.nonempty g = true →
         groupId m = Some g ∧ Server.receiverId m = None
         ∧ emitted out = [{| target := Room g; event := "newMessage";
                             payload := obj |}])
    ∧ (JS.truthy (body_groupId b) = false →
         groupId m = None ∧ Server.receiverId m = receiverId
         ∧ emitted out
           = emitTo (getReceiverSocketId receiverId) "newMessage" obj
             ++ emitTo (getReceiverSocketId (Some senderId)) "newMessage"
                  obj).
Proof.
  intros Hpass out. subst out. unfold Server.sendMessage.
  assert (negb (JS.truthy_trim (body_text b))
          && negb (JS.truthy (body_image b)) = false) as ->.
  { destruct (JS.truthy_trim _), (JS.truthy (body_image b)); done. }
  eexists _, _. simpl.
  split; [reflexivity|]. split; [reflexivity|].
  do 6 (split; [done|]).
  split; [|split].
  - unfold JS.when_truthy, emitTo, JS.when_truthy.
    repeat case_match; repeat constructor.
  - intros g Hg Hne. simpl. rewrite !Hg. simpl. by rewrite !Hne.
  - intros Hno. simpl. rewrite !Hno. by rewrite when_truthy_false.
Qed.

(** X9. Where the image of a send ends up. When the payload is larger
    than the limit ([3 * length > 41943040]) or the media store throws,
    the document keeps the payload itself; when the media store answers
    with a url, the document has that url. The send is answered 201 in
    each case. *)
Theorem sendMessage_image_fallback db b img receiverId senderId newId now :
  body_image b = Some img →
  JS.nonempty img = true →
  let out := sendMessage db b receiverId senderId newId now in
  ∃ m,
    stored out = db ++ [m]
    ∧ status (response out) = 201
    ∧ ((41943040 < 3 * Z.of_nat (String.length img)) → image m = Some img)
    ∧ (cloudinary_upload img = None → image m = Some img)
    ∧ (∀ url, (3 * Z.of_nat (String.length img) ≤ 41943040) →
              cloudinary_upload img = Some (Some url) →
              JS.nonempty url = true → image m = Some url).
Proof.
  intros Himg Hne out. subst out. unfold Server.sendMessage.
  rewrite Himg. simpl. rewrite Hne, andb_false_r. simpl.
  eexists. split; [reflexivity|]. split; [done|]. simpl.
  unfold uploadImage, JS.or_null. rewrite Himg, Hne.
  split; [|split].
  - intros Hbig. apply Z.ltb_lt in Hbig. rewrite Hbig. simpl. by rewrite Hne.
  - intros Hfail. rewrite Hfail. destruct (_ <? _); simpl; by rewrite Hne.
  - intros url Hsmall Hurl Hu.
    assert ((41943040 <? 3 * Z.of_nat (String.length img)) = false) as ->
      by (apply Z.ltb_ge; lia).
    rewrite Hurl. simpl. by rewrite Hu.
Qed.

(** X10. A send whose text is absent or blank (and which has an image)
    does not consult the classification service: whatever that service
    would answer, the document gets the sentiment "neutral" from the
    source "default" and the non-toxic verdict. A blank text that is not
    empty is stored all the same, as its token. *)
Theorem sendMessage_blank_text_default_verdict
    db b receiverId senderId newId now :
  JS.truthy_trim (body_text b) = false →
  JS.truthy (body_image b) = true →
  let out := sendMessage db b receiverId senderId newId now in
  ∃ m,
    stored out = db ++ [m]
    ∧ status (response out) = 201
    ∧ sentiment m = "neutral"
    ∧ sentimentAnalysis m = res_sentiment defaultAnalysis
    ∧ toxicity m = noToxicity
    ∧ text m = Server.encryptedText encryptCaesar (body_text b).
Proof.
  intros Hblank Himg out. subst out. unfold Server.sendMessage.
  rewrite Hblank, Himg. simpl.
  eexists. split; [reflexivity|]. split; [done|]. simpl.
  unfold analyse. unfold JS.truthy_trim in Hblank.
  destruct (body_text b) as [t|]; [|done]. by rewrite Hblank.
Qed.

(** *** Ids *)

Lemma filter_ids_NoDup (f : Message → bool) l :
  NoDup (_id <$> l) → NoDup (_id <$> List.filter f l).
Proof.
  induction l as [|x l IH]; simpl; [done|].
  rewrite NoDup_cons. intros [Hx Hnd]. destruct (f x); simpl; [|by apply IH].
  apply NoDup_cons. split; [|by apply IH].
  intros Hin. apply Hx. apply list_elem_of_fmap in Hin as (y & Hy & Hin).
  apply list_elem_of_fmap. exists y. split; [done|].
  apply list_elem_of_In in Hin. apply filter_In in Hin as [Hin _].
  by apply list_elem_of_In.
Qed.

Lemma reveal_id m : _id (fields (reveal m)) = _id m.
Proof. unfold Server.reveal. by destruct (_ && _). Qed.

Lemma history_ids db userToChatId groupId myId :
  ∃ entries,
    response (getMessages db userToChatId groupId myId)
    = {| status := 200; body := JsonHistory entries |}
    ∧ (_id ∘ fields ∘ self ∘ messageObj) <$> entries
      = _id <$> sortByCreatedAt (conversation db userToChatId groupId myId).
Proof.
  eexists. split; [reflexivity|].
  change (List.map ?f ?l) with (f <$> l). rewrite <- list_fmap_compose.
  apply Forall_fmap_ext_1, Forall_forall. intros m _. simpl.
  apply reveal_id.
Qed.

(** X11. Ids stay unique. If no two documents share an id, that is still
    so after any edit, delete or pin request and after a send whose new
    id is not in use; and then no history answer lists an id twice. *)
Theorem collection_ids_stay_unique db :
  NoDup (_id <$> db) →
  (∀ u messageId userId,
     NoDup (_id <$> stored (runUpdate u db messageId userId)))
  ∧ (∀ b receiverId senderId newId now,
       newId ∉ (_id <$> db) →
       NoDup (_id <$> stored (sendMessage db b receiverId senderId newId
                                now)))
  ∧ (∀ userToChatId groupId myId entries,
       body (response (getMessages db userToChatId groupId myId))
       = JsonHistory entries →
       NoDup ((_id ∘ fields ∘ self ∘ messageObj) <$> entries)).
Proof.
  intros Hnd. split; [|split].
  - intros u messageId userId.
    by rewrite (proj1 (update_touches_one_document_aux u db messageId
                         userId)).
  - intros b receiverId senderId newId now Hfresh.
    unfold Server.sendMessage. case_match; simpl; [done|].
    unfold insert. rewrite fmap_app. apply NoDup_app.
    split; [done|]. split; [|apply NoDup_singleton].
    intros i Hi Hi'. apply list_elem_of_singleton in Hi'. simpl in Hi'.
    by subst.
  - intros userToChatId groupId myId entries Hbody.
    destruct (history_ids db userToChatId groupId myId)
      as (entries' & Hres & Hids).
    rewrite Hres in Hbody. simpl in Hbody. injection Hbody as <-.
    rewrite Hids, sortByCreatedAt_perm.
    unfold conversation, JS.when_truthy.
    repeat case_match; by apply filter_ids_NoDup.
Qed.

(** *** Round trips through the text transform *)

Section RoundTrip.

Hypothesis reveal_obscure : ∀ t, decryptCaesar (encryptCaesar t) = t.
Hypothesis obscure_nonempty :
  ∀ t, JS.nonempty t = true → JS.nonempty (encryptCaesar t) = true.

Lemma reveal_token m o :
  isEncrypted m = true →
  text m = Server.encryptedText encryptCaesar o →
  text (fields (reveal m)) = JS.or_null o.
Proof.
  intros Henc Htext. unfold Server.reveal, Server.encryptedText in *.
  rewrite Henc, Htext. unfold JS.or_null.
  destruct (JS.truthy o) eqn:Ho.
  - apply truthy_Some in Ho as (t & -> & Ht).
    rewrite when_truthy_true by done. simpl.
    rewrite obscure_nonempty by done. simpl. by rewrite reveal_obscure.
  - rewrite when_truthy_false in * by done. simpl. done.
Qed.

(** X7. The answer to a send and every [newMessage] event carry the
    text of the request as it was typed (null when it was empty), while
    the collection holds its token. *)
Theorem sendMessage_answers_typed_text db b receiverId senderId newId now :
  JS.truthy_trim (body_text b) || JS.truthy (body_image b) = true →
  let out := sendMessage db b receiverId senderId newId now in
  ∃ m obj,
    stored out = db ++ [m]
    ∧ text m = Server.encryptedText encryptCaesar (body_text b)
    ∧ response out = {| status := 201; body := JsonMessage obj |}
    ∧ text (fields (self obj)) = JS.or_null (body_text b)
    ∧ Forall (λ e, text (fields (self (payload e)))
                   = JS.or_null (body_text b)) (emitted out).
Proof.
  intros Hpass out. subst out. unfold Server.sendMessage.
  assert (negb (JS.truthy_trim (body_text b))
          && negb (JS.truthy (body_image b)) = false) as ->.
  { destruct (JS.truthy_trim _), (JS.truthy (body_image b)); done. }
  eexists _, _. simpl.
  split; [reflexivity|]. split; [done|]. split; [reflexivity|].
  assert (text (fields (reveal (newMessage encryptCaesar analyze
                                  cloudinary_upload b receiverId senderId
                                  newId now)))
          = JS.or_null (body_text b)) as Htext by (by apply reveal_token).
  split; [done|].
  unfold JS.when_truthy, emitTo, JS.when_truthy.
  repeat case_match; repeat constructor; done.
Qed.

(** X8. After a permitted edit the collection holds the token of the new
    text and [edited] is set; the 200 answer and every [messageEdited]
    event carry the new text as it was typed. *)
Theorem editMessage_answers_typed_text db messageId newText userId message :
  findById db messageId = Some message →
  forbidden message userId = false →
  isEncrypted message = true →
  let out := editMessage db messageId newText userId in
  findById (stored out) messageId
  = Some (set_edited true
            (set_text (Server.encryptedText encryptCaesar newText) message))
  ∧ (∀ obj, response out = {| status := 200; body := JsonMessage obj |} →
            text (fields (self obj)) = JS.or_null newText
            ∧ edited (fields (self obj)) = true)
  ∧ Forall (λ e, event e = "messageEdited"
                 ∧ text (fields (self (payload e))) = JS.or_null newText
                 ∧ edited (fields (self (payload e))) = true) (emitted out).
Proof.
  intros Hfind Hperm Henc out. subst out. unfold Server.editMessage.
  rewrite Hfind, Hperm, finish_stored.
  set (m' := set_edited true (set_text _ message)).
  set (obj := {| self := reveal m'; replyToObj := _ |}).
  assert (text (fields (self obj)) = JS.or_null newText
          ∧ edited (fields (self obj)) = true) as Hobj.
  { split; [by apply reveal_token|].
    subst obj. simpl. unfold Server.reveal. by destruct (_ && _). }
  split; [|split].
  - eapply findById_save; [exact Hfind|]. simpl. by eapply findById_id.
  - intros obj' Hres. unfold finish in Hres.
    destruct (emitUpdate _ _ _ _); [|done]. by simplify_eq/=.
  - apply Forall_forall. intros e He.
    apply finish_emitted in He as (l & Hl & He).
    apply emitUpdate_event in Hl. rewrite Forall_forall in Hl.
    destruct (Hl e He) as [-> ->]. by destruct Hobj.
Qed.

End RoundTrip.

(** *** A deleted message in the history *)

Lemma conversation_frozen db userToChatId groupId myId m m' :
  frozen m' = frozen m →
  m ∈ conversation db userToChatId groupId myId →
  m' ∈ conversation (save db m') userToChatId groupId myId.
Proof.
  intros Hfrozen. rewrite !conversation_spec. intros [Hin Hconv].
  unfold frozen in Hfrozen. simplify_eq.
  split.
  - unfold save. change (List.map ?f ?l) with (f <$> l).
    apply list_elem_of_fmap. exists m. split; [|done].
    match goal with H : _id m' = _id m |- _ => rewrite H end.
    by rewrite String.eqb_refl.
  - repeat match goal with
           | H : _ m' = _ m |- _ => rewrite H; clear H
           end. done.
Qed.

(** X12. Deleting keeps the message in its conversation as a tombstone.
    After a permitted delete, every entry of a history answer that has
    the id of the message has a null text, [isDeleted] set and no
    reveal mark; and if the message was in the conversation asked for,
    the answer still has an entry with its id. *)
Theorem deleted_message_in_history
    db messageId userId message userToChatId groupId myId :
  findById db messageId = Some message →
  forbidden message userId = false →
  let db' := stored (deleteMessage db messageId userId) in
  ∃ entries,
    response (getMessages db' userToChatId groupId myId)
    = {| status := 200; body := JsonHistory entries |}
    ∧ Forall (λ e,
        _id (fields (self (messageObj e))) = messageId →
        text (fields (self (messageObj e))) = None
        ∧ isDeleted (fields (self (messageObj e))) = true
        ∧ isDecryptedForDisplay (self (messageObj e)) = false) entries
    ∧ (message ∈ conversation db userToChatId groupId myId →
       ∃ e, e ∈ entries ∧ _id (fields (self (messageObj e))) = messageId).
Proof.
  intros Hfind Hperm db'.
  pose proof (findById_id _ _ _ Hfind) as Hid.
  set (m' := set_text None (set_isDeleted true message)).
  assert (db' = save db m') as Hdb'.
  { subst db'. unfold Server.deleteMessage.
    by rewrite Hfind, Hperm, finish_stored. }
  eexists. split; [reflexivity|]. split.
  - apply Forall_forall. intros e He.
    change (List.map ?f ?l) with (f <$> l) in He.
    apply list_elem_of_fmap in He as (m & -> & Hm). simpl.
    rewrite reveal_id. intros Hmid.
    rewrite sortByCreatedAt_perm in Hm. apply conversation_elem in Hm.
    rewrite Hdb' in Hm. unfold save in Hm.
    change (List.map ?f ?l) with (f <$> l) in Hm.
    apply list_elem_of_fmap in Hm as (x & Hx & _).
    assert (m = m') as ->.
    { destruct (String.eqb (_id x) (_id m')) eqn:Hxid; [done|].
      subst m. apply String.eqb_neq in Hxid. simpl in Hxid. congruence. }
    unfold Server.reveal. simpl. by rewrite andb_false_r.
  - intros Hconv.
    exists (historyEntry decryptCaesar Reaction_find db' m').
    split; [|by rewrite <- Hid; simpl; rewrite reveal_id].
    change (List.map ?f ?l) with (f <$> l).
    apply list_elem_of_fmap_2. rewrite sortByCreatedAt_perm, Hdb'.
    by apply (conversation_frozen db userToChatId groupId myId message).
Qed.

(** *** The reaction summary of a history entry *)

Lemma pushReaction_keys acc r :
  NoDup (acc.*1) → NoDup ((pushReaction acc r).*1).
Proof.
  assert (∀ acc, (pushReaction acc r).*1 = acc.*1
                 ∨ ((pushReaction acc r).*1 = acc.*1 ++ [reaction_type r]
                    ∧ reaction_type r ∉ acc.*1)) as Hkeys.
  { clear acc. induction acc as [|[k us] acc IH]; csimpl.
    - right. split; [done|]. apply not_elem_of_nil.
    - destruct (String.eqb k (reaction_type r)) eqn:Hk; csimpl; [by left|].
      apply String.eqb_neq in Hk.
      destruct IH as [-> | [-> Hnew]]; [by left|]. right.
      split; [done|]. rewrite not_elem_of_cons. split; [congruence|done]. }
  intros Hnd. destruct (Hkeys acc) as [-> | [-> Hnew]]; [done|].
  apply NoDup_app. split; [done|]. split; [|apply NoDup_singleton].
  intros k Hk Hk'. apply list_elem_of_singleton in Hk'. by subst.
Qed.

Lemma pushReaction_total acc r :
  sum_list (length ∘ snd <$> pushReaction acc r)
  = S (sum_list (length ∘ snd <$> acc)).
Proof.
  induction acc as [|[k us] acc IH]; csimpl; [done|].
  destruct (String.eqb k (reaction_type r)); csimpl.
  - rewrite length_app. simpl. lia.
  - rewrite IH. lia.
Qed.

Lemma pushReaction_member acc r :
  ∃ us, (reaction_type r, us) ∈ pushReaction acc r ∧ userId r ∈ us.
Proof.
  induction acc as [|[k us] acc IH]; simpl.
  - exists [userId r]. split; [by left | by left].
  - destruct (String.eqb k (reaction_type r)) eqn:Hk.
    + apply String.eqb_eq in Hk as ->. exists (us ++ [userId r]).
      split; [by left|]. apply elem_of_app. right. by left.
    + destruct IH as (us' & Hin & Hu). exists us'. split; [by right|done].
Qed.

Lemma pushReaction_keeps acc r k us u :
  (k, us) ∈ acc → u ∈ us →
  ∃ us', (k, us') ∈ pushReaction acc r ∧ u ∈ us'.
Proof.
  induction acc as [|[k' us'] acc IH]; simpl; [by intros ?%elem_of_nil|].
  intros Hin Hu. apply elem_of_cons in Hin as [[= <- <-] | Hin].
  - destruct (String.eqb k (reaction_type r)).
    + exists (us ++ [userId r]). split; [by left|].
      apply elem_of_app. by left.
    + exists us. split; [by left|done].
  - destruct (String.eqb k' (reaction_type r)).
    + exists us. split; [by right|done].
    + destruct (IH Hin Hu) as (us'' & ? & ?). exists us''.
      split; [by right|done].
Qed.

(** X13. The reaction summary of a history entry groups the reactions of
    the message by type: no type occurs twice among its keys, the sizes
    of the groups add up to [totalReactions], which is the number of
    reactions, and the user of every reaction is in the group of that
    reaction's type. *)
Theorem reactionSummary_groups_by_type db message :
  let e := historyEntry decryptCaesar Reaction_find db message in
  reactions e = Reaction_find (_id message)
  ∧ totalReactions e = length (reactions e)
  ∧ NoDup ((reactionSummary e).*1)
  ∧ sum_list (length ∘ snd <$> reactionSummary e) = totalReactions e
  ∧ ∀ r, r ∈ reactions e →
         ∃ us, (reaction_type r, us) ∈ reactionSummary e ∧ userId r ∈ us.
Proof.
  simpl. split; [done|]. split; [done|].
  generalize (Reaction_find (_id message)). intros rs.
  assert (∀ acc,
            NoDup (acc.*1) →
            NoDup ((foldl pushReaction acc rs).*1)
            ∧ sum_list (length ∘ snd <$> foldl pushReaction acc rs)
              = (sum_list (length ∘ snd <$> acc) + length rs)%nat
            ∧ (∀ k us u, (k, us) ∈ acc → u ∈ us →
                 ∃ us', (k, us') ∈ foldl pushReaction acc rs ∧ u ∈ us')
            ∧ ∀ r, r ∈ rs →
                   ∃ us, (reaction_type r, us) ∈ foldl pushReaction acc rs
                         ∧ userId r ∈ us) as H.
  { induction rs as [|r rs IH]; intros acc Hnd; simpl.
    - split; [done|]. split; [lia|]. split; [eauto|].
      by intros r ?%elem_of_nil.
    - destruct (IH (pushReaction acc r) (pushReaction_keys _ _ Hnd))
        as (Hk & Hsum & Hkeep & Hall).
      split; [done|]. split; [rewrite Hsum, pushReaction_total; lia|].
      split.
      + intros k us u Hin Hu.
        destruct (pushReaction_keeps acc r k us u Hin Hu) as (us' & ? & ?).
        eauto.
      + intros r' Hr'. apply elem_of_cons in Hr' as [-> | Hr']; [|eauto].
        destruct (pushReaction_member acc r) as (us & ? & ?). eauto. }
  destruct (H [] (NoDup_nil_2)) as (Hk & Hsum & _ & Hall).
  split; [done|]. split; [by rewrite Hsum|done].
Qed.

End ControllerMore.

(** * Further properties of the chat store *)

Section StoreMore.

Import Client.

(** The four events the store listens to. *)
Inductive Event :=
| Created (m : Message)
| Edited (m : Message)
| Deleted (m : Message)
| Pinned (m : Message).

Definition applyEvent (e : Event) (w : World) : World :=
  match e with
  | Created m => applyCreated m w
  | Edited m => run_messageEditedHandler m w
  | Deleted m => run_messageDeletedHandler m w
  | Pinned m => run_messagePinnedHandler m w
  end.

(** A message as the server sends it, relevant to conversation [c]:
    of the group, or with populated sender and receiver that are the two
    users of the pair. *)
Definition servedFor (c : Conversation) (m : Message) : Prop :=
  match c with
  | Group g => groupId m = Some g
  | DirectPair a b =>
      ∃ s r, senderId m = Populated s ∧ receiverId m = Populated r
             ∧ ((s = a ∧ r = b) ∨ (s = b ∧ r = a))
  end.

Lemma applyCreated_known w m :
  (_id m ∈ _id <$> messages w) → applyCreated m w = w.
Proof.
  intros Hin. unfold applyCreated, run_messageHandler.
  destruct (selectedUser w), (authUser w); try done.
  destruct (isRelevantDM _ _ _) as [dm|]; simpl; [|done].
  destruct (_ || _); [|done].
  assert (existsb (λ msg, String.eqb (_id msg) (_id m)) (messages w) = true)
    as ->; [|done].
  apply list_elem_of_fmap in Hin as (x & Hid & Hx).
  apply existsb_exists. exists x. split; [by apply list_elem_of_In|].
  by apply String.eqb_eq.
Qed.

(** X14. What a [created] event does with a message the server sent for
    the conversation shown: if no entry has its id it becomes the last
    entry of the list, and if an entry has its id nothing changes,
    whatever the message is. *)
Theorem created_event_appends_once w c m :
  activeConversation w = Some c →
  servedFor c m →
  ((_id m ∉ _id <$> messages w) →
   messages (applyCreated m w) = messages w ++ [m])
  ∧ ((_id m ∈ _id <$> messages w) → applyCreated m w = w).
Proof.
  intros Hc Hm. split.
  - intros Hnew. by rewrite (applyCreated_appends w c m Hc Hm Hnew).
  - apply applyCreated_known.
Qed.

Lemma replaceById_ids m l : _id <$> replaceById m l = _id <$> l.
Proof.
  unfold replaceById. change (List.map ?f ?l) with (f <$> l).
  rewrite <- list_fmap_compose.
  apply Forall_fmap_ext_1, Forall_forall. intros x _. simpl.
  destruct (String.eqb (_id x) (_id m)) eqn:Hx; [|done].
  by apply String.eqb_eq in Hx.
Qed.

Lemma applyEvent_ids e w :
  _id <$> messages (applyEvent e w) = _id <$> messages w
  ∨ ∃ m, e = Created m ∧ (_id m ∉ _id <$> messages w)
         ∧ _id <$> messages (applyEvent e w)
           = (_id <$> messages w) ++ [_id m].
Proof.
  destruct e as [m|m|m|m]; simpl; try (left; apply replaceById_ids).
  unfold applyCreated, run_messageHandler.
  destruct (selectedUser w), (authUser w); try by left.
  destruct (isRelevantDM _ _ _) as [dm|]; simpl; [|by left].
  destruct (_ || _); [|by left].
  destruct (existsb _ _) eqn:Hex; [by left|]. right. exists m.
  split; [done|]. split; [|simpl; by rewrite fmap_app].
  intros Hin. apply list_elem_of_fmap in Hin as (x & Hid & Hx).
  assert (existsb (λ msg, String.eqb (_id msg) (_id m)) (messages w) = true)
    as Hyes; [|congruence].
  apply existsb_exists. exists x. split; [by apply list_elem_of_In|].
  by apply String.eqb_eq.
Qed.

(** X15. Events never remove or reorder entries. Through any sequence of
    [created], [edited], [deleted] and [pinned] events the ids of the
    list before are a prefix of the ids after, in the same order; and if
    they were distinct they still are. Only [created] events can add an
    id. *)
Theorem events_only_append_ids w evs :
  let w' := foldl (λ w e, applyEvent e w) w evs in
  (_id <$> messages w) `prefix_of` (_id <$> messages w')
  ∧ (NoDup (_id <$> messages w) → NoDup (_id <$> messages w'))
  ∧ (∀ i, i ∈ _id <$> messages w' →
          i ∈ _id <$> messages w ∨ ∃ m, Created m ∈ evs ∧ _id m = i).
Proof.
  simpl. revert w. induction evs as [|e evs IH]; intros w; simpl.
  - split; [done|]. split; [done|]. by left.
  - destruct (IH (applyEvent e w)) as (Hpre & Hnd & Hin).
    destruct (applyEvent_ids e w) as [Heq | (m & -> & Hnew & Heq)];
      rewrite Heq in *.
    + split; [done|]. split; [done|].
      intros i Hi. destruct (Hin i Hi) as [? | (m & ? & ?)]; [by left|].
      right. exists m. split; [by right|done].
    + split; [|split].
      * etrans; [|exact Hpre]. by apply prefix_app_r.
      * intros Hw. apply Hnd. apply NoDup_app. split; [done|].
        split; [|apply NoDup_singleton].
        intros i Hi Hi'. apply list_elem_of_singleton in Hi'. by subst.
      * intros i Hi. destruct (Hin i Hi) as [Hi' | (m' & ? & ?)].
        -- apply elem_of_app in Hi' as [? | Hi']; [by left|].
           apply list_elem_of_singleton in Hi'. right. exists m.
           split; [by left|done].
        -- right. exists m'. split; [by right|done].
Qed.

(** *** The store's own sendMessage against the socket *)

(** X16. The sender's own message is entered once, in whichever order
    the answer to the send and the fanned-out [created] event arrive:
    when the answer comes first the event finds the id and is dropped,
    when the event comes first the answer overwrites the list with the
    one read before the request plus the message. *)
Theorem send_echo_either_order w c p m :
  activeConversation w = Some c →
  sendMessage_request w = Some p →
  servedFor c m →
  (_id m ∉ _id <$> messages w) →
  messages (applyCreated m (sendMessage_settle p (Answered m) w).1)
  = messages w ++ [m]
  ∧ messages (sendMessage_settle p (Answered m) (applyCreated m w)).1
    = messages w ++ [m].
Proof.
  intros Hc Hp Hm Hnew. unfold sendMessage_request in Hp.
  destruct (selectedUser w) as [sel|] eqn:Hsel; [|done].
  injection Hp as <-. simpl. split; [|done].
  rewrite applyCreated_known; [done|]. simpl.
  rewrite fmap_app. apply elem_of_app. right. by left.
Qed.

(** X17. What arrives while a send is in flight is lost when it
    completes. The answer sets the list to the one read when
    [sendMessage] was called plus the sent message, in whatever state
    the store is by then: a message of the peer that a [created] event
    appended in between is in the list before the completion and not in
    it afterwards. *)
Theorem send_completion_drops_interim_message w c p interim sent :
  activeConversation w = Some c →
  sendMessage_request w = Some p →
  servedFor c interim →
  (_id interim ∉ _id <$> messages w) →
  _id interim ≠ _id sent →
  let during := applyCreated interim w in
  let after := (sendMessage_settle p (Answered sent) during).1 in
  interim ∈ messages during
  ∧ messages after = messages w ++ [sent]
  ∧ (interim ∉ messages after)
  ∧ (∀ evs, messages (sendMessage_settle p (Answered sent)
                       (foldl (λ w e, applyEvent e w) w evs)).1
            = messages w ++ [sent]).
Proof.
  intros Hc Hp Hm Hnew Hne. unfold sendMessage_request in Hp.
  destruct (selectedUser w) as [sel|] eqn:Hsel; [|done].
  injection Hp as <-. simpl.
  split; [|split; [done|split; [|done]]].
  - rewrite (applyCreated_appends w c interim Hc Hm Hnew). simpl.
    apply elem_of_app. right. by left.
  - intros Hin. apply elem_of_app in Hin as [Hin | Hin].
    + apply Hnew. by apply list_elem_of_fmap_2.
    + apply list_elem_of_singleton in Hin. by subst.
Qed.

End StoreMore.

(** * Further properties of the subscription *)

Section SubscriptionMore.

Import Client.

Lemma off_listeners_other s s' ev fn w :
  s ≠ s' → listeners (off s ev fn w) !! s' = listeners w !! s'.
Proof.
  intros Hne. destruct fn as [f|]; simpl; [|done].
  by rewrite lookup_alter_ne.
Qed.

Lemma receive_unbound s ev m w :
  storeListeners s w = [] → receive s ev m w = w.
Proof.
  unfold storeListeners, receive, callbacks.
  generalize (default [] (listeners w !! s)). intros l Hl.
  apply call_foreign. apply Forall_fmap.
  induction l as [|x l IH]; simpl in *; [done|].
  destruct (bool_decide (kind (callback x) = Foreign)) eqn:Hx;
    simpl in Hl; [|done].
  apply bool_decide_eq_true in Hx.
  destruct (String.eqb (event x) ev); [constructor; [done|]|]; by apply IH.
Qed.

(** X18. [unsubscribeFromMessages] takes the store's four listeners off
    the socket and leaves those of other components; the store records
    no socket and no function afterwards, and events that still arrive
    on the socket no longer change it. Called when nothing is bound, it
    does nothing. *)
Theorem unsubscribe_detaches_store w s others :
  Forall foreign others →
  (BoundOnce s others w →
   let w' := unsubscribeFromMessages w in
   Unbound w'
   ∧ listeners w' !! s = Some others
   ∧ storeListeners s w' = []
   ∧ messages w' = messages w
   ∧ ∀ ev m, receive s ev m w' = w')
  ∧ (Unbound w → unsubscribeFromMessages w = w).
Proof.
  intros Hothers. split.
  - intros Hb.
    destruct (unsubscribeFromMessages_unbinds s others w Hothers Hb)
      as (Hun & Hls & Hstore).
    simpl. split; [done|]. split; [done|]. split; [done|]. split.
    + destruct Hb as (Hcur & _). unfold unsubscribeFromMessages.
      rewrite Hcur. simpl. unfold off.
      by repeat case_match.
    + intros ev m. by apply receive_unbound.
  - intros (Hcur & _). unfold unsubscribeFromMessages. by rewrite Hcur.
Qed.

(** X19. The teardown and a new subscription, as a component does on
    every switch: after [unsubscribeFromMessages] and then
    [subscribeToMessages] on the same socket one listener set is bound
    again, after the listeners of the other components, and every event
    runs its listener once. *)
Theorem resubscribe_binds_one_set w s others a :
  socket w = Some s →
  selectedUser w = Some a →
  Forall foreign others →
  BoundOnce s others w →
  let w' := subscribeToMessages (unsubscribeFromMessages w) in
  BoundOnce s others w'
  ∧ length (storeListeners s w') = 4%nat
  ∧ DeliversOnce s w'
  ∧ messages w' = messages w.
Proof.
  intros Hs Ha Hothers Hb. simpl.
  pose proof (resubscribe_after_unsubscribe s others a w Hs Ha Hothers Hb)
    as Hb'.
  split; [done|].
  destruct (storeListeners_bound s others _ Hothers Hb') as [n ->].
  split; [done|]. split; [by eapply BoundOnce_delivers|].
  destruct (unsubscribeFromMessages_unbinds s others w Hothers Hb)
    as ((Hcur & Hh & _) & _ & _).
  assert (messages (unsubscribeFromMessages w) = messages w) as <-.
  { destruct Hb as (Hc & _). unfold unsubscribeFromMessages.
    rewrite Hc. simpl. unfold off. by repeat case_match. }
  generalize dependent (unsubscribeFromMessages w). intros u _ Hcur Hh.
  unfold subscribeToMessages.
  destruct (socket u); [|done]. destruct (selectedUser u); [|done].
  rewrite Hcur. simpl. rewrite Hcur, Hh. simpl. done.
Qed.

(** What the first step of [subscribeToMessages] leaves when the socket
    has changed. *)
Lemma unbindOld_bound s others w :
  Forall foreign others → BoundOnce s others w →
  let w1 := unbindOld s w in
  messageHandler w1 = None
  ∧ currentSocket w1 = Some s
  ∧ socket w1 = socket w ∧ selectedUser w1 = selectedUser w
  ∧ messages w1 = messages w ∧ allocated w1 = allocated w
  ∧ listeners w1 !! s = Some others
  ∧ ∀ s', s ≠ s' → listeners w1 !! s' = listeners w !! s'.
Proof.
  intros Hothers (Hcur & n & Hh & Hd & He & Hp & Hls). simpl.
  unfold unbindOld. cbv zeta.
  repeat match goal with
         | |- context [messagePinnedHandler (off ?s ?ev ?fn ?w)] =>
             rewrite (proj1 (proj2 (proj2 (proj2 (off_binding s ev fn w)))))
         | |- context [messageEditedHandler (off ?s ?ev ?fn ?w)] =>
             rewrite (proj1 (proj2 (proj2 (off_binding s ev fn w))))
         | |- context [messageDeletedHandler (off ?s ?ev ?fn ?w)] =>
             rewrite (proj1 (proj2 (off_binding s ev fn w)))
         end.
  rewrite Hh, Hd, He, Hp. simpl.
  split; [done|]. split; [done|]. split; [done|]. split; [done|].
  split; [done|]. split; [done|]. split.
  - rewrite !lookup_alter_eq, Hls. simpl. unfold ownListeners.
    rewrite !remove_first_foreign by done.
    rewrite !remove_first_head. by rewrite app_nil_r.
  - intros s' Hne. by rewrite !lookup_alter_ne.
Qed.

(** X20. When the socket of the session has changed, the next
    [subscribeToMessages] moves the binding: the store's four listeners
    are taken off the old socket, whose other listeners stay and whose
    events no longer reach the store, and one new set is bound to the
    new socket, after what that socket already had. *)
Theorem socket_change_moves_binding w old new others a :
  old ≠ new →
  socket w = Some new →
  selectedUser w = Some a →
  Forall foreign others →
  BoundOnce old others w →
  let w' := subscribeToMessages w in
  BoundOnce new (default [] (listeners w !! new)) w'
  ∧ listeners w' !! old = Some others
  ∧ storeListeners old w' = []
  ∧ (∀ ev m, receive old ev m w' = w')
  ∧ messages w' = messages w.
Proof.
  intros Hne Hs Ha Hothers Hb.
  destruct (unbindOld_bound old others w Hothers Hb)
    as (Hh1 & Hcur1 & Hs1 & Ha1 & Hm1 & Hal1 & Hls1 & Hother1).
  destruct Hb as (Hcur & _).
  assert (subscribeToMessages w
          = subscribeToMessages
              (set_binding None None None None None (unbindOld old w)))
    as Hsub.
  { unfold subscribeToMessages at 1. rewrite Hs, Ha, Hcur.
    rewrite (bool_decide_eq_false_2 (old = new)) by done.
    generalize dependent (unbindOld old w). intros w1 Hh1 Hcur1 Hs1 Ha1 _ _ _ _.
    cbv zeta. rewrite Hcur1, Hh1.
    rewrite (bool_decide_eq_false_2 (Some old = Some new)) by congruence.
    unfold subscribeToMessages. simpl. rewrite Hs1, Hs, Ha1, Ha. simpl.
    done. }
  generalize dependent (unbindOld old w).
  intros w1 Hh1 Hcur1 Hs1 Ha1 Hm1 Hal1 Hls1 Hother1 Hsub.
  set (u := set_binding None None None None None w1) in *.
  assert (Unbound u) as Hun by done.
  assert (socket u = Some new) as Hsu by (by subst u; simpl; rewrite Hs1).
  assert (selectedUser u = Some a) as Hau
    by (by subst u; simpl; rewrite Ha1).
  assert (BoundOnce new (default [] (listeners w !! new))
            (subscribeToMessages u)) as Hb'.
  { rewrite <- (Hother1 new Hne).
    by apply (subscribeToMessages_binds new a u). }
  simpl. rewrite Hsub. split; [done|].
  assert (listeners (subscribeToMessages u) !! old = Some others
          ∧ messages (subscribeToMessages u) = messages w) as [Hold Hmsg].
  { unfold subscribeToMessages. rewrite Hsu, Hau.
    destruct Hun as (-> & -> & _). simpl.
    unfold on. simpl. rewrite !lookup_insert_ne by done. done. }
  split; [done|].
  assert (storeListeners old (subscribeToMessages u) = []) as Hnone.
  { unfold storeListeners. rewrite Hold. simpl. by apply filter_foreign. }
  split; [done|]. split; [intros ev m; by apply receive_unbound|done].
Qed.

(** X21. The listeners serve the conversation that is selected when the
    event arrives, not the one that was selected when they were bound.
    With a set bound while A was shown, select B and call
    [subscribeToMessages]: a [newMessage] event on the socket with a
    message the server sent for the pair of the local user and B, with a
    new id, is appended; one with a message between the local user and a
    third user is dropped. *)
Theorem listener_follows_selection w s others me b forB forA third :
  socket w = Some s →
  authUser w = Some me →
  Forall foreign others →
  BoundOnce s others w →
  JS.truthy (SelectedUser.groupId b) = false →
  servedFor (DirectPair (AuthUser._id me) (SelectedUser._id b)) forB →
  (_id forB ∉ _id <$> messages w) →
  senderId forA = Populated third →
  third ≠ AuthUser._id me → third ≠ SelectedUser._id b →
  let w1 := subscribeToMessages (setSelectedUser (Some b) w) in
  messages (receive s "newMessage" forB w1) = messages w ++ [forB]
  ∧ receive s "newMessage" forA w1 = w1.
Proof.
  intros Hs Hme Hothers Hb Hgroup HforB Hnew HforA Hne1 Hne2.
  assert (subscribeToMessages (setSelectedUser (Some b) w)
          = setSelectedUser (Some b) w) as Hw1.
  { eapply subscribeToMessages_bound; [done|].
    by apply BoundOnce_setSelectedUser. }
  simpl. rewrite Hw1.
  assert (DeliversOnce s (setSelectedUser (Some b) w)) as Hdel.
  { eapply BoundOnce_delivers; [done|]. by apply BoundOnce_setSelectedUser. }
  assert (activeConversation (setSelectedUser (Some b) w)
          = Some (DirectPair (AuthUser._id me) (SelectedUser._id b)))
    as Hc.
  { unfold activeConversation. simpl. rewrite Hme.
    by rewrite when_truthy_false. }
  split.
  - rewrite (proj1 (Hdel forB)).
    by rewrite (applyCreated_appends _ _ forB Hc HforB Hnew).
  - rewrite (proj1 (Hdel forA)).
    destruct (applyCreated_inv _ _ forA Hc) as [-> | (Hrel & _)]; [done|].
    exfalso. simpl in Hrel. destruct Hrel as (x & r & Hx & _ & Hpair).
    rewrite HforA in Hx. simpl in Hx. injection Hx as <-.
    destruct Hpair as [[? _] | [? _]]; congruence.
Qed.

End SubscriptionMore.

(** * Further properties of the sidebar *)

Section SidebarMore.

Import Client Sidebar.

(** The message with another [groupId]. *)
Definition with_groupId (g : option string) (m : Message) : Message :=
  {| _id := _id m; senderId := senderId m; receiverId := receiverId m;
     groupId := g; text := text m; image := image m; edited := edited m;
     isDeleted := isDeleted m; pinned := pinned m;
     createdAt := createdAt m |}.

(** X22. The recency table is keyed by users only. What the listener
    does with a message does not depend on its group id: a group message
    of another member is filed under that member, with the creation time
    of the message, and a group message of the local user, which has no
    receiver, changes nothing. *)
Theorem recency_is_keyed_by_users currentUserId m st :
  (∀ g, handleNewMessage currentUserId (with_groupId g m) st
        = handleNewMessage currentUserId m st)
  ∧ (∀ s t, senderId m = Populated s → receiverId m = Missing →
            createdAt m = Some t →
            (currentUserId = Some s → Sidebar.receive currentUserId m st = st)
            ∧ (currentUserId ≠ Some s → JS.nonempty s = true →
               s ≠ "undefined" →
               userLastMessageTime (Sidebar.receive currentUserId m st)
               = <[s := t]> (userLastMessageTime st))).
Proof.
  split; [done|].
  intros s t Hs Hr Ht. unfold Sidebar.receive, handleNewMessage.
  rewrite Ht, Hs, Hr. simpl. split.
  - intros ->. simpl. rewrite String.eqb_refl. simpl.
    by rewrite !andb_false_r.
  - intros Hne Hs1 Hs2. rewrite Hs1. simpl.
    apply String.eqb_neq in Hs2. rewrite Hs2.
    destruct currentUserId as [c|]; simpl; [|done].
    assert (String.eqb s c = false) as ->; [|done].
    apply String.eqb_neq. congruence.
Qed.


(** *** The order of the contact list *)

Section Order.

Variable localeCompare : string → string → Z.

Hypothesis localeCompare_total :
  ∀ a b, localeCompare a b ≤ 0 ∨ localeCompare b a ≤ 0.

Variable times : gmap string Z.

(** [a] may stand before [b]: a later recorded time first, and names
    decide only between two contacts without recorded time. *)
Definition mayPrecede (a b : Friend.t) : Prop :=
  timeOf times (Friend._id b) ≤ timeOf times (Friend._id a)
  ∧ (timeOf times (Friend._id a) = 0 → timeOf times (Friend._id b) = 0 →
     localeCompare (Friend.fullName a) (Friend.fullName b) ≤ 0).

Lemma byRecency_le a b :
  byRecency localeCompare times a b ≤ 0 ↔ mayPrecede a b.
Proof.
  unfold byRecency, mayPrecede.
  destruct (timeOf times (Friend._id a) =? 0) eqn:Ha,
           (timeOf times (Friend._id b) =? 0) eqn:Hb; simpl;
    rewrite ?Z.eqb_eq, ?Z.eqb_neq in *; lia.
Qed.

Lemma byRecency_total a b :
  byRecency localeCompare times a b ≤ 0
  ∨ byRecency localeCompare times b a ≤ 0.
Proof.
  rewrite !byRecency_le. unfold mayPrecede.
  destruct (localeCompare_total (Friend.fullName a) (Friend.fullName b));
    [|lia].
  destruct (decide (timeOf times (Friend._id b)
                    ≤ timeOf times (Friend._id a))); [left|right]; lia.
Qed.

Lemma insertBy_perm cmp x l : insertBy cmp x l ≡ₚ x :: l.
Proof.
  induction l as [|y l IH]; simpl; [done|].
  destruct (cmp x y <=? 0); [done|]. by rewrite IH, Permutation_swap.
Qed.

Lemma sortBy_perm cmp l : sortBy cmp l ≡ₚ l.
Proof.
  induction l as [|x l IH]; simpl; [done|]. by rewrite insertBy_perm, IH.
Qed.

Lemma insertBy_sorted x l :
  Sorted mayPrecede l →
  Sorted mayPrecede (insertBy (byRecency localeCompare times) x l).
Proof.
  induction 1 as [|y l Hl IH Hhd]; simpl; [by repeat constructor|].
  destruct (byRecency localeCompare times x y <=? 0) eqn:Hle.
  - apply Z.leb_le, byRecency_le in Hle.
    constructor; [by constructor|]. by constructor.
  - apply Z.leb_gt in Hle.
    assert (mayPrecede y x) as Hyx.
    { apply byRecency_le. destruct (byRecency_total x y); [lia|done]. }
    constructor; [done|].
    destruct l as [|z l]; simpl; [by constructor|].
    destruct (byRecency localeCompare times x z <=? 0); constructor;
      [done|]. by inversion Hhd.
Qed.

(** X24. The contact list after its sort is a rearrangement of the list
    before, and each contact may stand before the next: recorded times
    never increase along the list (so, times being positive, contacts
    with recorded activity come first, the most recent on top), and two
    neighbours without recorded time are in the order of their names.
    Two contacts with the same recorded time are not ordered by name. *)
Theorem contact_list_sorted_by_recency l :
  sortByRecency localeCompare times l ≡ₚ l
  ∧ Sorted mayPrecede (sortByRecency localeCompare times l)
  ∧ StronglySorted (λ a b, timeOf times (Friend._id b)
                           ≤ timeOf times (Friend._id a))
      (sortByRecency localeCompare times l).
Proof.
  unfold sortByRecency.
  assert (Sorted mayPrecede (sortBy (byRecency localeCompare times) l))
    as Hsorted.
  { induction l as [|x l IH]; simpl; [constructor|].
    by apply insertBy_sorted. }
  split; [apply sortBy_perm|]. split; [done|].
  assert (Transitive (λ a b : Friend.t, timeOf times (Friend._id b)
                                        ≤ timeOf times (Friend._id a)))
    by (intros x y z; lia).
  apply Sorted_StronglySorted; [done|].
  induction Hsorted as [|x k Hk IH Hhd]; constructor; [done|].
  destruct Hhd as [|y k' [Hxy _]]; by constructor.
Qed.

End Order.

(** *** Loading the table from the histories *)

Section Load.

Variable decryptCaesar : string → string.
Variable Reaction_find : string → list Server.Reaction.

(** What the request [GET /messages/<friend>] of user [me] brings back:
    the list in the answer of the controller. *)
Definition historyWith (db : Server.Collection) (me friend : string)
  : option (list Server.HistoryEntry) :=
  match Server.body
          (Server.response
             (Server.getMessages decryptCaesar Reaction_find db friend None
                me)) with
  | Server.JsonHistory data => Some data
  | _ => None
  end.

Lemma fetch_lookup (friends : list string)
    (get : string → option (list Server.HistoryEntry))
    (acc : gmap string Z) (f : string) :
  foldl (λ timestamps friend,
           match get friend with
           | Some data =>
               match lastCreatedAt data with
               | Some timestamp => <[friend := timestamp]> timestamps
               | None => timestamps
               end
           | None => timestamps
           end) acc friends !! f
  = match (if bool_decide (f ∈ friends) then get f ≫= lastCreatedAt
           else None) with
    | Some t => Some t
    | None => acc !! f
    end.
Proof.
  revert acc. induction friends as [|x friends IH]; intros acc;
    cbn [foldl].
  - by rewrite bool_decide_eq_false_2 by apply not_elem_of_nil.
  - rewrite IH. destruct (decide (f = x)) as [<-|Hne].
    + rewrite (bool_decide_eq_true_2 (f ∈ f :: friends)) by left.
      destruct (get f) as [data|]; simpl; [|by repeat case_match].
      destruct (lastCreatedAt data) as [t|]; simpl;
        [|by repeat case_match].
      rewrite lookup_insert_eq. by repeat case_match.
    + assert (bool_decide (f ∈ x :: friends) = bool_decide (f ∈ friends))
        as ->.
      { apply bool_decide_ext. rewrite elem_of_cons. tauto. }
      assert (match get x with
              | Some data =>
                  match lastCreatedAt data with
                  | Some timestamp => <[x := timestamp]> acc
                  | None => acc
                  end
              | None => acc
              end !! f = acc !! f) as ->.
      { destruct (get x) as [data|]; [|done].
        destruct (lastCreatedAt data); [|done].
        by rewrite lookup_insert_ne. }
      done.
Qed.

Lemma last_sorted_latest l x :
  Sorted earlier l → last l = Some x →
  ∀ y, y ∈ l → Server.createdAt y ≤ Server.createdAt x.
Proof.
  intros Hsorted Hlast y Hy.
  assert (Transitive earlier) by (intros a b c; unfold earlier; lia).
  apply Sorted_StronglySorted in Hsorted; [|done].
  induction Hsorted as [|z l Hl IH Hall]; [by apply elem_of_nil in Hy|].
  destruct l as [|z' l'].
  - simpl in Hlast. injection Hlast as <-.
    apply list_elem_of_singleton in Hy as ->. done.
  - apply elem_of_cons in Hy as [-> | Hy].
    + rewrite Forall_forall in Hall. apply Hall.
      apply list_elem_of_lookup. exists (length l').
      rewrite <- Hlast. rewrite last_lookup. done.
    + apply IH; [|done]. by rewrite <- Hlast.
Qed.

(** X25. The time the sidebar loads for a friend is the creation time
    of the newest message of the conversation with that friend. After
    [fetchAllUserMessages] over the answers of the history requests, a
    friend with an empty conversation has no entry, and a friend with
    messages has the creation time of one of them, which none of the
    others exceeds. The table is replaced: what was in it before is
    gone. *)
Theorem sidebar_loads_latest_message db me friends f st :
  f ∈ friends →
  let conv := Server.conversation db f None me in
  let st' := fetchAllUserMessages friends (historyWith db me) st in
  (conv = [] → userLastMessageTime st' !! f = None)
  ∧ (conv ≠ [] →
     ∃ newest, newest ∈ conv
       ∧ userLastMessageTime st' !! f = Some (Server.createdAt newest)
       ∧ ∀ m, m ∈ conv → Server.createdAt m ≤ Server.createdAt newest)
  ∧ (∀ other, other ∉ friends → userLastMessageTime st' !! other = None).
Proof.
  intros Hf conv st'.
  assert (∀ k, userLastMessageTime st' !! k
               = if bool_decide (k ∈ friends)
                 then historyWith db me k ≫= lastCreatedAt else None)
    as Hlookup.
  { intros k. subst st'. unfold fetchAllUserMessages.
    destruct friends as [|x friends']; [by apply elem_of_nil in Hf|].
    cbn [userLastMessageTime]. rewrite fetch_lookup.
    by repeat case_match. }
  assert (historyWith db me f ≫= lastCreatedAt
          = Server.createdAt <$> last (Server.sortByCreatedAt conv))
    as Hlast.
  { unfold historyWith, lastCreatedAt. simpl.
    change (List.map ?g ?l) with (g <$> l).
    rewrite fmap_last. destruct (last _) as [m|]; simpl; [|done].
    f_equal. unfold Server.reveal. by destruct (_ && _). }
  split; [|split].
  - intros Hempty. rewrite Hlookup, bool_decide_eq_true_2, Hlast by done.
    by rewrite Hempty.
  - intros Hne. rewrite Hlookup, bool_decide_eq_true_2, Hlast by done.
    destruct (last (Server.sortByCreatedAt conv)) as [newest|] eqn:Hnew.
    + exists newest. split; [|split; [done|]].
      * rewrite <- sortByCreatedAt_perm. by apply last_Some_elem_of.
      * intros m Hm. eapply last_sorted_latest;
          [apply sortByCreatedAt_sorted | done
          | by rewrite sortByCreatedAt_perm].
    + apply last_None in Hnew. exfalso. apply Hne.
      apply Permutation_nil_r. by rewrite <- sortByCreatedAt_perm, Hnew.
  - intros other Hother. by rewrite Hlookup, bool_decide_eq_false_2.
Qed.

End Load.

End SidebarMore.

(** * The member picker and the user list *)

Section PickerFacts.

Import GroupCreationModal.

Lemma includes_elem id l : includes id l = true ↔ id ∈ l.
Proof.
  unfold includes. rewrite existsb_exists. split.
  - intros (x & Hx & Heq). apply String.eqb_eq in Heq as ->.
    by apply list_elem_of_In.
  - intros Hin. exists id. split; [by apply list_elem_of_In|].
    apply String.eqb_refl.
Qed.

Lemma filter_out_absent id l :
  id ∉ l → List.filter (λ fid, negb (String.eqb fid id)) l = l.
Proof.
  induction l as [|x l IH]; simpl; [done|].
  rewrite not_elem_of_cons. intros [Hne Hl].
  assert (String.eqb x id = false) as -> by (apply String.eqb_neq; congruence).
  simpl. by rewrite IH.
Qed.

Lemma elem_of_filter_out id l x :
  x ∈ List.filter (λ fid, negb (String.eqb fid id)) l ↔ x ∈ l ∧ x ≠ id.
Proof.
  rewrite !list_elem_of_In, filter_In, negb_true_iff, String.eqb_neq. done.
Qed.

(** X26. Ticking a friend in the picker toggles exactly that friend:
    afterwards the friend is selected if and only if it was not before,
    and every other id is selected as before. A selection without
    repetitions stays without, and ticking twice a friend that was not
    selected gives back the selection as it was. *)
Theorem toggleFriend_toggles id prev :
  (id ∈ toggleFriend id prev ↔ id ∉ prev)
  ∧ (∀ other, other ≠ id → (other ∈ toggleFriend id prev ↔ other ∈ prev))
  ∧ (NoDup prev → NoDup (toggleFriend id prev))
  ∧ (id ∉ prev → toggleFriend id (toggleFriend id prev) = prev).
Proof.
  unfold toggleFriend.
  destruct (includes id prev) eqn:Hin.
  - apply includes_elem in Hin. split; [|split; [|split]].
    + rewrite elem_of_filter_out. tauto.
    + intros other Hne. rewrite elem_of_filter_out. tauto.
    + intros Hnd. clear Hin. induction Hnd as [|x l Hx Hnd IH]; simpl;
        [constructor|].
      destruct (negb (String.eqb x id)); [|done].
      constructor; [|done]. rewrite elem_of_filter_out. tauto.
    + done.
  - assert (id ∉ prev) as Hout.
    { intros H. apply includes_elem in H. congruence. }
    split; [|split; [|split]].
    + rewrite elem_of_app, list_elem_of_singleton. tauto.
    + intros other Hne. rewrite elem_of_app, list_elem_of_singleton. tauto.
    + intros Hnd. apply NoDup_app. split; [done|].
      split; [|apply NoDup_singleton].
      intros x Hx Hx'. apply list_elem_of_singleton in Hx'. by subst.
    + intros _.
      assert (includes id (prev ++ [id]) = true) as ->.
      { apply includes_elem, elem_of_app. right. by left. }
      rewrite List.filter_app. simpl. rewrite String.eqb_refl. simpl.
      rewrite filter_out_absent by done. apply app_nil_r.
Qed.

(** X27. What [createGroup] lets through. Every request it makes carries
    at least two member ids, and all the selected ones. A request to add
    members is made only when editing a group and when at least one
    selected id is not a member yet; a request to create a group made
    from the form with a name field has a name that is not blank. *)
Theorem createGroup_requests showGroupNameInput groupName selectedFriends
    group_id initialMembers :
  match createGroup showGroupNameInput groupName selectedFriends group_id
          initialMembers with
  | Toast _ => True
  | AddMembers g members =>
      members = selectedFriends ∧ (2 ≤ length members)%nat
      ∧ showGroupNameInput = false ∧ group_id = Some g
      ∧ ∃ id, id ∈ selectedFriends ∧ id ∉ initialMembers
  | CreateGroup name members =>
      members = selectedFriends ∧ (2 ≤ length members)%nat
      ∧ name = groupName
      ∧ (showGroupNameInput = true → JS.nonempty (JS.trim name) = true)
  end.
Proof.
  unfold createGroup.
  destruct (showGroupNameInput && _) eqn:Hname; [done|].
  destruct (length selectedFriends <? 2)%nat eqn:Hlen; [done|].
  apply Nat.ltb_ge in Hlen.
  assert (showGroupNameInput = true → JS.nonempty (JS.trim groupName) = true)
    as Hblank.
  { intros ->. simpl in Hname. by apply negb_false_iff in Hname. }
  unfold JS.when_truthy.
  destruct showGroupNameInput; [done|].
  destruct group_id as [g|]; [|done].
  destruct (JS.nonempty g); [|done].
  destruct (length _ =? 0)%nat eqn:Hnew; [done|].
  apply Nat.eqb_neq in Hnew.
  repeat split; try done.
  destruct (List.filter _ selectedFriends) as [|id rest] eqn:Hfilter;
    [done|].
  exists id.
  assert (In id (List.filter (λ id, negb (includes id initialMembers))
                   selectedFriends)) as Hin by (rewrite Hfilter; by left).
  apply filter_In in Hin as [Hin Hout]. split; [by apply list_elem_of_In|].
  intros Hmem. apply includes_elem in Hmem. rewrite Hmem in Hout. done.
Qed.

End PickerFacts.

Section UsersFacts.

Variable User : Type.
Variable User_id : User → string.
Variable without_password : User → User.

(** [getUsersForSidebar] answers 200 with every user but the
    requester, each without password and in the order of the collection,
    whether or not the requester has the administrator's address; in
    particular it never answers 404, also when there is no other user. *)
Lemma getUsersForSidebar_lists_others users loggedInUserId
    loggedInUserEmail :
  Server.getUsersForSidebar User User_id without_password users
    loggedInUserId loggedInUserEmail
  = (200, without_password
            <$> List.filter (λ u, negb (String.eqb (User_id u)
                                          loggedInUserId)) users)
  ∧ (∀ u, u ∈ users →
          User_id u ≠ loggedInUserId ↔
          u ∈ List.filter (λ u, negb (String.eqb (User_id u)
                                        loggedInUserId)) users).
Proof.
  split.
  - unfold Server.getUsersForSidebar, Server.findOthers. by case_match.
  - intros u Hu. rewrite list_elem_of_In, filter_In, <- list_elem_of_In.
    rewrite negb_true_iff, String.eqb_neq. tauto.
Qed.

End UsersFacts.

(** * The group controller *)

Section GroupFacts.

Import GroupController.

Lemma unique_elem l x : x ∈ unique l ↔ x ∈ l.
Proof.
  induction l as [|y l IH]; simpl; [done|].
  rewrite !elem_of_cons, list_elem_of_In, filter_In, <- list_elem_of_In, IH.
  rewrite negb_true_iff, String.eqb_neq.
  destruct (decide (x = y)); tauto.
Qed.

Lemma unique_NoDup l : NoDup (unique l).
Proof.
  induction l as [|y l IH]; simpl; [constructor|].
  constructor.
  - rewrite list_elem_of_In, filter_In, negb_true_iff, String.eqb_neq. tauto.
  - clear -IH. induction IH as [|x k Hx Hk IHk]; simpl; [constructor|].
    destruct (negb (String.eqb x y)); [|done].
    constructor; [|done].
    rewrite list_elem_of_In, filter_In, <- list_elem_of_In. tauto.
Qed.

Lemma filter_keeps_all (f : string → bool) l :
  (∀ x, x ∈ l → f x = true) → List.filter f l = l.
Proof.
  induction l as [|y l IH]; simpl; intros H; [done|].
  rewrite H by left. rewrite IH; [done|]. intros x Hx. apply H. by right.
Qed.

Lemma unique_of_NoDup l : NoDup l → unique l = l.
Proof.
  induction 1 as [|y l Hy Hl IH]; simpl; [done|].
  rewrite IH. f_equal. apply filter_keeps_all.
  intros x Hx. rewrite negb_true_iff, String.eqb_neq. congruence.
Qed.

Lemma filter_swap (f g : string → bool) l :
  List.filter f (List.filter g l) = List.filter g (List.filter f l).
Proof.
  induction l as [|x l IH]; simpl; [done|].
  destruct (f x) eqn:Hf, (g x) eqn:Hg; simpl; rewrite ?Hf, ?Hg, IH; done.
Qed.

Lemma filter_twice (f : string → bool) l :
  List.filter f (List.filter f l) = List.filter f l.
Proof.
  induction l as [|x l IH]; simpl; [done|].
  destruct (f x) eqn:Hf; simpl; rewrite ?Hf, IH; done.
Qed.

Lemma filter_unique y l :
  List.filter (λ z, negb (String.eqb z y)) (unique l)
  = unique (List.filter (λ z, negb (String.eqb z y)) l).
Proof.
  induction l as [|c l IH]; simpl; [done|].
  destruct (String.eqb c y) eqn:Hc; simpl.
  - apply String.eqb_eq in Hc as ->. by rewrite filter_twice.
  - by rewrite filter_swap, IH.
Qed.

(** Appending ids that are all present already adds nothing. *)
Lemma unique_absorbs l more :
  NoDup l → (∀ x, x ∈ more → x ∈ l) → unique (l ++ more) = l.
Proof.
  intros Hl. revert more. induction Hl as [|y l Hy Hl IH]; intros more Hin.
  - destruct more as [|x more]; [done|].
    exfalso. eapply not_elem_of_nil, Hin. by left.
  - simpl. f_equal.
    rewrite filter_unique, List.filter_app.
    rewrite (filter_keeps_all _ l).
    + apply IH. intros x Hx.
      apply list_elem_of_In, filter_In in Hx as [Hx Hne].
      apply list_elem_of_In, Hin, elem_of_cons in Hx as [-> | Hx]; [|done].
      by rewrite String.eqb_refl in Hne.
    + intros x Hx. rewrite negb_true_iff, String.eqb_neq. congruence.
Qed.

Lemma group_findById_save groups groupId g g' :
  findById groups groupId = Some g → _id g' = groupId →
  findById (save groups g') groupId = Some g'.
Proof.
  unfold findById, save. intros Hfind <-.
  induction groups as [|x groups IH]; simpl in *; [done|].
  destruct (String.eqb (_id x) (_id g')) eqn:Hx; simpl.
  - by rewrite String.eqb_refl.
  - rewrite Hx. by apply IH.
Qed.

Lemma group_findById_id groups groupId g :
  findById groups groupId = Some g → _id g = groupId.
Proof.
  unfold findById. intros H. apply find_some in H as [_ H].
  by apply String.eqb_eq.
Qed.

Lemma group_save_save groups g :
  save (save groups g) g = save groups g.
Proof.
  unfold save. rewrite List.map_map. apply List.map_ext. intros x.
  destruct (String.eqb (_id x) (_id g)) eqn:Hx; [|by rewrite Hx].
  by rewrite String.eqb_refl.
Qed.

(** X28. A new group gets the id the store gives it and its creator as
    admin; its members are the requested ids and the creator, each once,
    whatever repetitions the request had. *)
Theorem createGroup_members groups name requested user newId :
  let out := createGroup groups name requested user newId in
  ∃ g,
    stored out = groups ++ [g]
    ∧ status out = 201 ∧ body out = JsonGroup g
    ∧ _id g = newId ∧ admin g = user
    ∧ user ∈ members g
    ∧ (∀ m, m ∈ members g ↔ m ∈ requested ∨ m = user)
    ∧ NoDup (members g).
Proof.
  simpl. eexists. split; [reflexivity|]. simpl.
  do 4 (split; [done|]).
  assert (∀ m, m ∈ unique (requested ++ [user]) ↔ m ∈ requested ∨ m = user)
    as Hmem.
  { intros m. rewrite unique_elem, elem_of_app, list_elem_of_singleton.
    done. }
  split; [apply Hmem; by right|]. split; [done|]. apply unique_NoDup.
Qed.

(** X29. Adding members. An empty list is answered 400 and an unknown
    group 404, with the collection untouched. Otherwise the group found
    is stored with the members it had and the added ids, each once; its
    members of before keep their places when they had no repetitions;
    and making the same request again changes nothing more. *)
Theorem addMembersToGroup_adds groups groupId added :
  let out := addMembersToGroup groups groupId added in
  (added = [] → stored out = groups ∧ status out = 400)
  ∧ (added ≠ [] → findById groups groupId = None →
     stored out = groups ∧ status out = 404)
  ∧ (∀ g, added ≠ [] → findById groups groupId = Some g →
     ∃ g',
       status out = 200 ∧ body out = JsonGroup g'
       ∧ findById (stored out) groupId = Some g'
       ∧ (∀ m, m ∈ members g' ↔ m ∈ members g ∨ m ∈ added)
       ∧ NoDup (members g')
       ∧ (NoDup (members g) → members g `prefix_of` members g')
       ∧ stored (addMembersToGroup (stored out) groupId added)
         = stored out).
Proof.
  simpl. unfold addMembersToGroup.
  split; [by intros ->|]. split.
  - intros Hne Hnone. destruct added; [done|]. by rewrite Hnone.
  - intros g Hne Hfind. destruct added as [|a added']; [done|].
    set (added := a :: added') in *.
    rewrite Hfind. simpl.
    set (g' := set_members (unique (members g ++ added)) g).
    pose proof (group_findById_id _ _ _ Hfind) as Hid.
    assert (findById (save groups g') groupId = Some g') as Hfind'
      by (by eapply group_findById_save).
    exists g'. split; [done|]. split; [done|]. split; [done|].
    split; [|split; [|split]].
    + intros m. subst g'. simpl. by rewrite unique_elem, elem_of_app.
    + apply unique_NoDup.
    + intros Hnd. subst g'. simpl.
      assert (∀ l more, NoDup l →
                ∃ rest, unique (l ++ more) = l ++ rest) as Hprefix.
      { clear. intros l more Hl. revert more.
        induction Hl as [|y l Hy Hl IH]; intros more; simpl; [eauto|].
        rewrite filter_unique, List.filter_app.
        rewrite (filter_keeps_all _ l).
        - destruct (IH (List.filter (λ z, negb (String.eqb z y)) more))
            as [rest ->]. eauto.
        - intros x Hx. rewrite negb_true_iff, String.eqb_neq. congruence. }
      destruct (Hprefix (members g) added Hnd) as [rest ->].
      by exists rest.
    + assert (unique (members g' ++ added) = members g') as Hsame.
      { apply unique_absorbs; [apply unique_NoDup|].
        intros x Hx. subst g'. simpl. rewrite unique_elem, elem_of_app.
        by right. }
      assert (set_members (unique (members g' ++ added)) g' = g') as Hg'.
      { rewrite Hsame. by destruct g'. }
      rewrite Hfind'. cbv zeta. cbn [stored]. rewrite Hg'.
      apply group_save_save.
Qed.

Lemma findOne_true groups groupId userId :
  findOne groups groupId userId = true ↔
  ∃ g, g ∈ groups ∧ _id g = groupId ∧ userId ∈ members g.
Proof.
  unfold findOne. rewrite existsb_exists. split.
  - intros (g & Hg & Hboth). apply andb_true_iff in Hboth as [Hid Hmem].
    exists g. split; [by apply list_elem_of_In|].
    split; [by apply String.eqb_eq|].
    apply existsb_exists in Hmem as (x & Hx & Heq).
    apply String.eqb_eq in Heq as ->. by apply list_elem_of_In.
  - intros (g & Hg & Hid & Hmem). exists g.
    split; [by apply list_elem_of_In|]. apply andb_true_iff.
    split; [by apply String.eqb_eq|].
    apply existsb_exists. exists userId.
    split; [by apply list_elem_of_In | apply String.eqb_refl].
Qed.

(** X30. Leaving a group takes the rights on its messages away, except
    on one's own. A member may edit, delete and pin every message of the
    group; once [removeMemberFromGroup] has answered 200 for that user,
    the group collection no longer lists the user for the group, and the
    permission check of the message controller passes for that user
    exactly on the group's messages the user sent. *)
Theorem leaving_group_revokes_rights groups groupId userId g message :
  findById groups groupId = Some g →
  userId ∈ members g →
  Server.groupId message = Some groupId →
  JS.nonempty groupId = true →
  let out := removeMemberFromGroup groups groupId userId in
  status out = 200
  ∧ Server.forbidden (findOne groups) message userId = false
  ∧ findOne (stored out) groupId userId = false
  ∧ (Server.forbidden (findOne (stored out)) message userId = false ↔
     Server.senderId message = userId).
Proof.
  intros Hfind Hmem Hgroup Hne.
  pose proof (group_findById_id _ _ _ Hfind) as Hid.
  assert (existsb (String.eqb userId) (members g) = true) as Hin.
  { apply existsb_exists. exists userId.
    split; [by apply list_elem_of_In | apply String.eqb_refl]. }
  assert (findOne groups groupId userId = true) as Hbefore.
  { apply findOne_true. exists g. split; [|done].
    unfold findById in Hfind. apply find_some in Hfind as [Hg _].
    by apply list_elem_of_In. }
  simpl. unfold removeMemberFromGroup. rewrite Hfind, Hin. simpl.
  set (g' := set_members _ g).
  assert (findOne (save groups g') groupId userId = false) as Hafter.
  { destruct (findOne (save groups g') groupId userId) eqn:Hyes; [|done].
    exfalso. apply findOne_true in Hyes as (x & Hx & Hxid & Hxmem).
    unfold save in Hx. change (List.map ?f ?l) with (f <$> l) in Hx.
    apply list_elem_of_fmap in Hx as (y & -> & _).
    destruct (String.eqb (_id y) (_id g')) eqn:Hy.
    - subst g'. simpl in Hxmem.
      apply list_elem_of_In, filter_In in Hxmem as [_ Hxmem].
      by rewrite String.eqb_refl in Hxmem.
    - apply String.eqb_neq in Hy. subst g'. simpl in Hy. congruence. }
  split; [done|].
  split; [|split; [done|]].
  - apply (forbidden_group (findOne groups) message userId groupId Hgroup
             Hne). by right.
  - rewrite (forbidden_group (findOne (save groups g')) message userId
               groupId Hgroup Hne), Hafter.
    split; [|by left]. intros [? | ?]; done.
Qed.

End GroupFacts.

(** * The further properties on concrete runs *)

(** *** The controller *)

Lemma pinMessage_twice_restores_witness :
  Server.stored
    (Server.pinMessage Caesar.decryptCaesar X_and_Y_connected no_groups
       (Server.stored
          (Server.pinMessage Caesar.decryptCaesar X_and_Y_connected
             no_groups [hi_from_X_to_Y] "m1" "Y")) "m1" "Y")
  = [hi_from_X_to_Y].
Proof.
  destruct (pinMessage_twice_restores Caesar.decryptCaesar X_and_Y_connected
              no_groups [hi_from_X_to_Y] "m1" "Y" hi_from_X_to_Y eq_refl
              eq_refl)
    as (_ & _ & _ & _ & Hback).
  apply Hback. apply (NoDup_singleton "m1").
Defined.

(** "hi" for the group g1. *)
Definition hi_to_group : Server.SendBody :=
  {| Server.body_text := Some "hi"; Server.body_image := None;
     Server.body_groupId := Some "g1"; Server.body_sentiment := None;
     Server.body_replyTo := None; Server.body_selectedModel := None |}.

Lemma sendMessage_audience_witness :
  ∃ m obj,
    Server.stored
      (Server.sendMessage Caesar.encryptCaesar Caesar.decryptCaesar
         never_classifies upload_fails X_and_Y_connected [hi_from_X_to_Y]
         hi_to_group None "X" "m2" 2000) = [hi_from_X_to_Y] ++ [m]
    ∧ Server.groupId m = Some "g1"
    ∧ Server.receiverId m = None
    ∧ Server.emitted
        (Server.sendMessage Caesar.encryptCaesar Caesar.decryptCaesar
           never_classifies upload_fails X_and_Y_connected [hi_from_X_to_Y]
           hi_to_group None "X" "m2" 2000)
      = [{| Server.target := Server.Room "g1";
            Server.event := "newMessage"; Server.payload := obj |}].
Proof.
  destruct (sendMessage_audience Caesar.encryptCaesar Caesar.decryptCaesar
              never_classifies upload_fails X_and_Y_connected
              [hi_from_X_to_Y] hi_to_group None "X" "m2" 2000 eq_refl)
    as (m & obj & Hstored & _ & _ & _ & _ & _ & _ & _ & _ & Hgroup & _).
  destruct (Hgroup "g1" eq_refl eq_refl) as (Hg & Hr & He).
  exists m, obj. repeat split; assumption.
Defined.

Lemma sendMessage_answers_typed_text_witness :
  ∃ m obj,
    Server.stored
      (Server.sendMessage Caesar.encryptCaesar Caesar.decryptCaesar
         never_classifies upload_fails X_and_Y_connected [] hi_unlabelled
         (Some "Y") "X" "m2" 2000) = [] ++ [m]
    ∧ Server.text m = Some (Caesar.encryptCaesar "hi")
    ∧ Server.response
        (Server.sendMessage Caesar.encryptCaesar Caesar.decryptCaesar
           never_classifies upload_fails X_and_Y_connected [] hi_unlabelled
           (Some "Y") "X" "m2" 2000)
      = {| Server.status := 201; Server.body := Server.JsonMessage obj |}
    ∧ Server.text (Server.fields (Server.self obj)) = Some "hi".
Proof.
  destruct (sendMessage_answers_typed_text Caesar.encryptCaesar
              Caesar.decryptCaesar never_classifies upload_fails
              X_and_Y_connected Caesar_reveal_obscure
              Caesar_obscure_nonempty [] hi_unlabelled (Some "Y") "X" "m2"
              2000 eq_refl)
    as (m & obj & Hstored & Htoken & Hresp & Htext & _).
  exists m, obj. repeat split; assumption.
Defined.

Lemma editMessage_answers_typed_text_witness :
  Server.findById
    (Server.stored
       (Server.editMessage Caesar.encryptCaesar Caesar.decryptCaesar
          X_and_Y_connected no_groups [hi_from_X_to_Y] "m1" (Some "hello")
          "X")) "m1"
  = Some (Server.set_edited true
            (Server.set_text (Some (Caesar.encryptCaesar "hello"))
               hi_from_X_to_Y))
  ∧ Forall (λ e, Server.event e = "messageEdited"
                 ∧ Server.text (Server.fields (Server.self (Server.payload e)))
                   = Some "hello"
                 ∧ Server.edited
                     (Server.fields (Server.self (Server.payload e))) = true)
      (Server.emitted
         (Server.editMessage Caesar.encryptCaesar Caesar.decryptCaesar
            X_and_Y_connected no_groups [hi_from_X_to_Y] "m1" (Some "hello")
            "X")).
Proof.
  destruct (editMessage_answers_typed_text Caesar.encryptCaesar
              Caesar.decryptCaesar X_and_Y_connected no_groups
              Caesar_reveal_obscure Caesar_obscure_nonempty [hi_from_X_to_Y]
              "m1" (Some "hello") "X" hi_from_X_to_Y eq_refl eq_refl eq_refl)
    as (Hfind & _ & Hevents).
  split; [exact Hfind | exact Hevents].
Defined.

(** A picture without text, and one with a blank text. *)
Definition picture_only : Server.SendBody :=
  {| Server.body_text := None;
     Server.body_image := Some "data:image/png;base64,iVBORw0KGgo=";
     Server.body_groupId := None; Server.body_sentiment := None;
     Server.body_replyTo := None; Server.body_selectedModel := None |}.

Definition blank_with_picture : Server.SendBody :=
  {| Server.body_text := Some "  ";
     Server.body_image := Some "data:image/png;base64,iVBORw0KGgo=";
     Server.body_groupId := None; Server.body_sentiment := None;
     Server.body_replyTo := None; Server.body_selectedModel := None |}.

Lemma sendMessage_image_fallback_witness :
  ∃ m,
    Server.stored
      (Server.sendMessage Caesar.encryptCaesar Caesar.decryptCaesar
         never_classifies upload_fails X_and_Y_connected [] picture_only
         (Some "Y") "X" "m2" 2000) = [] ++ [m]
    ∧ Server.image m = Some "data:image/png;base64,iVBORw0KGgo=".
Proof.
  destruct (sendMessage_image_fallback Caesar.encryptCaesar
              Caesar.decryptCaesar never_classifies upload_fails
              X_and_Y_connected [] picture_only
              "data:image/png;base64,iVBORw0KGgo=" (Some "Y") "X" "m2" 2000
              eq_refl eq_refl)
    as (m & Hstored & _ & _ & Hfail & _).
  exists m. split; [exact Hstored|]. apply Hfail. reflexivity.
Defined.

(** A classification service that finds every text positive. *)
Definition always_positive (text model : string)
  : option Server.AnalysisResult :=
  Some {| Server.res_sentiment :=
            {| Server.value := "positive"; Server.confidence := 1;
               Server.score := 1; Server.source := "svc";
               Server.wordAnalysis := []; Server.enhanced := true |};
          Server.res_toxicity := Server.noToxicity;
          Server.res_sentimentOverridden := Some false |}.

Lemma sendMessage_blank_text_default_verdict_witness :
  ∃ m,
    Server.stored
      (Server.sendMessage Caesar.encryptCaesar Caesar.decryptCaesar
         always_positive upload_fails X_and_Y_connected [] blank_with_picture
         (Some "Y") "X" "m2" 2000) = [] ++ [m]
    ∧ Server.sentiment m = "neutral"
    ∧ Server.toxicity m = Server.noToxicity
    ∧ Server.text m = Some (Caesar.encryptCaesar "  ").
Proof.
  destruct (sendMessage_blank_text_default_verdict Caesar.encryptCaesar
              Caesar.decryptCaesar always_positive upload_fails
              X_and_Y_connected [] blank_with_picture (Some "Y") "X" "m2"
              2000 eq_refl eq_refl)
    as (m & Hstored & _ & Hsent & _ & Htox & Htext).
  exists m. repeat split; assumption.
Defined.

Lemma collection_ids_stay_unique_witness :
  NoDup (Server._id
           <$> Server.stored
                 (Server.sendMessage Caesar.encryptCaesar
                    Caesar.decryptCaesar never_classifies upload_fails
                    X_and_Y_connected [hi_from_X_to_Y] hi_unlabelled
                    (Some "Y") "X" "m2" 2000)).
Proof.
  destruct (collection_ids_stay_unique Caesar.encryptCaesar
              Caesar.decryptCaesar never_classifies upload_fails
              X_and_Y_connected no_groups no_reactions [hi_from_X_to_Y]
              (NoDup_singleton "m1"))
    as (_ & Hsend & _).
  apply Hsend. simpl. intros Hin.
  apply list_elem_of_singleton in Hin. discriminate Hin.
Defined.

Lemma deleted_message_in_history_witness :
  ∃ entries e,
    Server.response
      (Server.getMessages Caesar.decryptCaesar no_reactions
         (Server.stored
            (Server.deleteMessage X_and_Y_connected no_groups
               [hi_from_X_to_Y] "m1" "Y")) "X" None "Y")
    = {| Server.status := 200; Server.body := Server.JsonHistory entries |}
    ∧ e ∈ entries
    ∧ Server._id (Server.fields (Server.self (Server.messageObj e))) = "m1"
    ∧ Server.text (Server.fields (Server.self (Server.messageObj e))) = None
    ∧ Server.isDeleted (Server.fields (Server.self (Server.messageObj e)))
      = true.
Proof.
  destruct (deleted_message_in_history Caesar.decryptCaesar
              X_and_Y_connected no_groups no_reactions [hi_from_X_to_Y] "m1"
              "Y" hi_from_X_to_Y "X" None "Y" eq_refl eq_refl)
    as (entries & Hres & Hall & Hstill).
  destruct Hstill as (e & He & Hid).
  { change (hi_from_X_to_Y ∈ [hi_from_X_to_Y]). left. }
  rewrite Forall_forall in Hall.
  destruct (Hall e He Hid) as (Htext & Hdel & _).
  exists entries, e. repeat split; assumption.
Defined.

(** *** The chat store *)

(** The local user's own "hi" to A, as the server answers it. *)
Definition hi_to_A : Client.Message :=
  {| Client._id := "m3"; Client.senderId := Client.Populated "Me";
     Client.receiverId := Client.Populated "A"; Client.groupId := None;
     Client.text := Some "hi"; Client.image := None;
     Client.edited := false; Client.isDeleted := false;
     Client.pinned := false; Client.createdAt := Some 3000 |}.

Lemma hi_from_A_served : servedFor (DirectPair "Me" "A") hi_from_A.
Proof. exists "A", "Me". split; [done|]. split; [done|]. by right. Qed.

Lemma hi_to_A_served : servedFor (DirectPair "Me" "A") hi_to_A.
Proof. exists "Me", "A". split; [done|]. split; [done|]. by left. Qed.

Lemma created_event_appends_once_witness :
  Client.messages (Client.applyCreated hi_from_A fresh_store)
  = [] ++ [hi_from_A]
  ∧ Client.applyCreated hi_from_A (Client.applyCreated hi_from_A fresh_store)
    = Client.applyCreated hi_from_A fresh_store.
Proof.
  destruct (created_event_appends_once fresh_store (DirectPair "Me" "A")
              hi_from_A eq_refl hi_from_A_served)
    as (Hnew & _).
  destruct (created_event_appends_once
              (Client.applyCreated hi_from_A fresh_store)
              (DirectPair "Me" "A") hi_from_A eq_refl hi_from_A_served)
    as (_ & Hknown).
  split.
  - apply Hnew. apply not_elem_of_nil.
  - apply Hknown. left.
Defined.

Lemma send_echo_either_order_witness :
  Client.messages
    (Client.applyCreated hi_to_A
       (Client.sendMessage_settle
          {| Client.pending_messages := []; Client.pending_receiver := Some "A" |}
          (Client.Answered hi_to_A) fresh_store).1)
  = [] ++ [hi_to_A]
  ∧ Client.messages
      (Client.sendMessage_settle
         {| Client.pending_messages := []; Client.pending_receiver := Some "A" |}
         (Client.Answered hi_to_A)
         (Client.applyCreated hi_to_A fresh_store)).1
    = [] ++ [hi_to_A].
Proof.
  apply (send_echo_either_order fresh_store (DirectPair "Me" "A")
           {| Client.pending_messages := [];
              Client.pending_receiver := Some "A" |}
           hi_to_A eq_refl eq_refl hi_to_A_served).
  apply not_elem_of_nil.
Defined.

Lemma send_completion_drops_interim_message_witness :
  hi_from_A ∈ Client.messages (Client.applyCreated hi_from_A fresh_store)
  ∧ Client.messages
      (Client.sendMessage_settle
         {| Client.pending_messages := []; Client.pending_receiver := Some "A" |}
         (Client.Answered hi_to_A)
         (Client.applyCreated hi_from_A fresh_store)).1
    = [] ++ [hi_to_A].
Proof.
  destruct (send_completion_drops_interim_message fresh_store
              (DirectPair "Me" "A")
              {| Client.pending_messages := [];
                 Client.pending_receiver := Some "A" |}
              hi_from_A hi_to_A eq_refl eq_refl hi_from_A_served
              (not_elem_of_nil _) ltac:(discriminate))
    as (Hduring & Hafter & _).
  split; [exact Hduring | exact Hafter].
Defined.

(** *** The subscription *)

Lemma unsubscribe_detaches_store_witness :
  let w := Client.unsubscribeFromMessages
             (Client.subscribeToMessages fresh_store) in
  Client.listeners w !! 0%nat = Some [sidebar_listener]
  ∧ storeListeners 0 w = []
  ∧ Client.receive 0 "newMessage" hi_from_A w = w.
Proof.
  intros w.
  destruct (unsubscribe_detaches_store
              (Client.subscribeToMessages fresh_store) 0%nat
              [sidebar_listener] ltac:(repeat constructor))
    as (Hbound & _).
  destruct (Hbound fresh_store_subscribed) as (_ & Hls & Hnone & _ & Hdead).
  split; [exact Hls|]. split; [exact Hnone | apply Hdead].
Defined.

Lemma resubscribe_binds_one_set_witness :
  let w := Client.subscribeToMessages
             (Client.unsubscribeFromMessages
                (Client.subscribeToMessages fresh_store)) in
  BoundOnce 0 [sidebar_listener] w
  ∧ length (storeListeners 0 w) = 4%nat.
Proof.
  intros w.
  destruct (resubscribe_binds_one_set
              (Client.subscribeToMessages fresh_store) 0%nat
              [sidebar_listener] friend_A eq_refl eq_refl
              ltac:(repeat constructor) fresh_store_subscribed)
    as (Hbound & Hfour & _).
  split; [exact Hbound | exact Hfour].
Defined.

(** The store bound on socket 0, after the session has moved to socket 1,
    where the sidebar has bound its listener already. *)
Definition reconnected_store : Client.World :=
  let w := Client.subscribeToMessages fresh_store in
  {| Client.messages := Client.messages w;
     Client.selectedUser := Client.selectedUser w;
     Client.messageHandler := Client.messageHandler w;
     Client.messageDeletedHandler := Client.messageDeletedHandler w;
     Client.messageEditedHandler := Client.messageEditedHandler w;
     Client.messagePinnedHandler := Client.messagePinnedHandler w;
     Client.currentSocket := Client.currentSocket w;
     Client.socket := Some 1%nat;
     Client.authUser := Client.authUser w;
     Client.listeners := <[ 1%nat := [sidebar_listener] ]> (Client.listeners w);
     Client.allocated := Client.allocated w |}.

Lemma reconnected_store_bound :
  BoundOnce 0 [sidebar_listener] reconnected_store.
Proof.
  split; [reflexivity|]. exists 0%nat. repeat split.
Qed.

Lemma socket_change_moves_binding_witness :
  let w := Client.subscribeToMessages reconnected_store in
  BoundOnce 1 [sidebar_listener] w
  ∧ Client.listeners w !! 0%nat = Some [sidebar_listener]
  ∧ storeListeners 0 w = [].
Proof.
  intros w.
  destruct (socket_change_moves_binding reconnected_store 0%nat 1%nat
              [sidebar_listener] friend_A ltac:(discriminate) eq_refl
              eq_refl ltac:(repeat constructor) reconnected_store_bound)
    as (Hbound & Hold & Hnone & _).
  split; [exact Hbound|]. split; [exact Hold | exact Hnone].
Defined.

Lemma listener_follows_selection_witness :
  let w1 := Client.subscribeToMessages
              (Client.setSelectedUser (Some friend_B)
                 (Client.subscribeToMessages fresh_store)) in
  Client.messages (Client.receive 0 "newMessage" hi_from_B w1)
  = [] ++ [hi_from_B]
  ∧ Client.receive 0 "newMessage" hi_from_A w1 = w1.
Proof.
  intros w1.
  apply (listener_follows_selection
           (Client.subscribeToMessages fresh_store) 0%nat [sidebar_listener]
           {| Client.AuthUser._id := "Me" |} friend_B hi_from_B hi_from_A
           "A" eq_refl eq_refl ltac:(repeat constructor)
           fresh_store_subscribed eq_refl).
  - exists "B", "Me". split; [done|]. split; [done|]. by right.
  - apply not_elem_of_nil.
  - reflexivity.
  - discriminate.
  - discriminate.
Defined.

(** *** The sidebar *)

(** A comparison of names by their bytes, for [localeCompare]. *)
Definition compareBytes (a b : string) : Z :=
  match String.compare a b with
  | Lt => -1
  | Eq => 0
  | Gt => 1
  end.

Lemma compareBytes_total a b : compareBytes a b ≤ 0 ∨ compareBytes b a ≤ 0.
Proof.
  unfold compareBytes. rewrite (String.compare_antisym a b).
  destruct (String.compare b a); simpl; lia.
Qed.

Definition Ann : Sidebar.Friend.t :=
  {| Sidebar.Friend._id := "A"; Sidebar.Friend.fullName := "Ann";
     Sidebar.Friend.email := "ann@example.org" |}.

Definition Bob : Sidebar.Friend.t :=
  {| Sidebar.Friend._id := "B"; Sidebar.Friend.fullName := "Bob";
     Sidebar.Friend.email := "bob@example.org" |}.

Definition Cyd : Sidebar.Friend.t :=
  {| Sidebar.Friend._id := "C"; Sidebar.Friend.fullName := "Cyd";
     Sidebar.Friend.email := "cyd@example.org" |}.

Lemma contact_list_sorted_by_recency_witness :
  Sidebar.sortByRecency compareBytes {[ "B" := 2000 ]} [Cyd; Ann; Bob]
  ≡ₚ [Cyd; Ann; Bob]
  ∧ Sorted (mayPrecede compareBytes {[ "B" := 2000 ]})
      (Sidebar.sortByRecency compareBytes {[ "B" := 2000 ]} [Cyd; Ann; Bob]).
Proof.
  destruct (contact_list_sorted_by_recency compareBytes compareBytes_total
              {[ "B" := 2000 ]} [Cyd; Ann; Bob])
    as (Hperm & Hsorted & _).
  split; [exact Hperm | exact Hsorted].
Defined.

(** A later answer of Y to X. *)
Definition reply_from_Y_to_X : Server.Message :=
  {| Server._id := "m2"; Server.senderId := "Y";
     Server.receiverId := Some "X"; Server.groupId := None;
     Server.text := Some (Caesar.encryptCaesar "hello"); Server.image := None;
     Server.sentiment := "neutral";
     Server.sentimentAnalysis :=
       Server.res_sentiment Server.defaultAnalysis;
     Server.sentimentOverridden := false;
     Server.toxicity := Server.noToxicity; Server.replyTo := None;
     Server.isEncrypted := true; Server.encryptionMethod := "caesar";
     Server.encryptionKey := 4; Server.edited := false;
     Server.isDeleted := false; Server.pinned := false;
     Server.createdAt := 3000 |}.

Lemma sidebar_loads_latest_message_witness :
  ∃ newest,
    newest ∈ Server.conversation [reply_from_Y_to_X; hi_from_X_to_Y] "X" None
               "Y"
    ∧ Sidebar.userLastMessageTime
        (Sidebar.fetchAllUserMessages ["X"]
           (historyWith Caesar.decryptCaesar no_reactions
              [reply_from_Y_to_X; hi_from_X_to_Y] "Y") A_seen_at_2000)
        !! "X" = Some (Server.createdAt newest)
    ∧ Server.createdAt reply_from_Y_to_X ≤ Server.createdAt newest.
Proof.
  destruct (sidebar_loads_latest_message Caesar.decryptCaesar no_reactions
              [reply_from_Y_to_X; hi_from_X_to_Y] "Y" ["X"] "X"
              A_seen_at_2000 ltac:(left))
    as (_ & Hsome & _).
  destruct Hsome as (newest & Hin & Htime & Hmax); [discriminate|].
  exists newest. split; [exact Hin|]. split; [exact Htime|].
  apply Hmax. change (reply_from_Y_to_X ∈ [reply_from_Y_to_X; hi_from_X_to_Y]).
  left.
Defined.

(** *** The group controller *)

(** The group g1 of X, Y and Z, and a message of X in it. *)
Definition team : GroupController.Group :=
  {| GroupController._id := "g1"; GroupController.name := "team";
     GroupController.members := ["X"; "Y"; "Z"];
     GroupController.admin := "X"; GroupController.profilePic := None |}.

Definition hi_in_team : Server.Message :=
  {| Server._id := "m4"; Server.senderId := "X";
     Server.receiverId := None; Server.groupId := Some "g1";
     Server.text := Some (Caesar.encryptCaesar "hi"); Server.image := None;
     Server.sentiment := "neutral";
     Server.sentimentAnalysis :=
       Server.res_sentiment Server.defaultAnalysis;
     Server.sentimentOverridden := false;
     Server.toxicity := Server.noToxicity; Server.replyTo := None;
     Server.isEncrypted := true; Server.encryptionMethod := "caesar";
     Server.encryptionKey := 4; Server.edited := false;
     Server.isDeleted := false; Server.pinned := false;
     Server.createdAt := 4000 |}.

Lemma leaving_group_revokes_rights_witness :
  let out := GroupController.removeMemberFromGroup [team] "g1" "Y" in
  GroupController.status out = 200
  ∧ Server.forbidden (GroupController.findOne [team]) hi_in_team "Y" = false
  ∧ GroupController.findOne (GroupController.stored out) "g1" "Y" = false.
Proof.
  intros out.
  destruct (leaving_group_revokes_rights [team] "g1" "Y" team hi_in_team
              eq_refl ltac:(right; left) eq_refl eq_refl)
    as (Hstatus & Hbefore & Hafter & _).
  split; [exact Hstatus|]. split; [exact Hbefore | exact Hafter].
Defined.
